(** * ARF_REACT: the building list page (src/pages/BuildingList.jsx)

    A shallow embedding of the crack statistics, the severity classifier,
    the ranking engine and the search and filter pipeline of the page.

    Modelling choices.
    - A JavaScript number is the rational ([Q]) that the double is:
      [>=], [>] and [Math.max] on doubles are the exact comparisons, a
      decimal literal is the double nearest to it, and a sum or a
      quotient is the exact one rounded to the nearest double
      ([double]).  A result beyond the largest double, where the code
      has Infinity, is outside the model: widths in millimetres, their
      sums and their means stay far below it.
    - [null] and [undefined] are both [None]: the page tests them only
      with [== null], [!= null], [?.], [||] and truthiness, which do not
      tell them apart.
    - A string is its sequence of UTF-16 code units.
    - The three severity labels are an enumeration.
    - A member call on an absent receiver throws: computations that can
      throw live in [result]; arrays that the page allocates, copies or
      sorts in place live in a [store], threaded by the monad [M].
    - [String.prototype.toLowerCase], [Number.prototype.toFixed] and the
      time value of [new Date(s)] belong to the platform: they are
      variables of the sections that use them. *)

From Stdlib Require Import String Ascii.
From Stdlib Require Import QArith Qround Qabs Lqa Lia List Bool Permutation Sorted.
From stdpp Require Import base list.

Set Default Proof Using "Type".

(** ** JavaScript values *)

Definition code_unit := N.
Definition jsstring := list code_unit.

(** An ASCII literal as a JavaScript string. *)
Definition str (s : String.string) : jsstring :=
  map Ascii.N_of_ascii (String.list_ascii_of_string s).
Arguments str s%_string.

(** *** Doubles

    [double x] is the double nearest to the rational x, the one of even
    mantissa on a tie (IEEE 754 binary64: 53 bits of mantissa, the
    least exponent -1074).  Beyond the largest double, where the code
    has Infinity, it goes on rounding to 53 bits: the model does not
    speak for the code there. *)

(** 2 to the power e. *)
Definition pow2 (e : Z) : Q :=
  if (0 <=? e)%Z then inject_Z (2 ^ e) else / inject_Z (2 ^ (- e)).

(** The integer part of the binary logarithm of a positive rational. *)
Definition binade (a : Q) : Z :=
  let k := (Z.log2 (Qnum a) - Z.log2 (Zpos (Qden a)))%Z in
  if Qle_bool (pow2 k) a then k else (k - 1)%Z.

(** The integer nearest to x, the even one on a tie. *)
Definition roundHalfEven (x : Q) : Z :=
  let f := Qfloor x in
  match (x - inject_Z f ?= 1 # 2)%Q with
  | Lt => f
  | Gt => (f + 1)%Z
  | Eq => if Z.even f then f else (f + 1)%Z
  end.

Definition double (x : Q) : Q :=
  let x := Qred x in
  if Qeq_bool x 0 then 0%Q
  else
    let a := Qabs x in
    let e := Z.max (binade a - 52) (-1074) in
    let r := Qred (inject_Z (roundHalfEven (a / pow2 e)) * pow2 e) in
    if Qlt_le_dec x 0 then Qred (- r) else r.

(** [x + y] and [x / y] on doubles; the page divides by the length of
    an array that it has found not to be empty. *)
Definition add (x y : Q) : Q := double (x + y).

Definition div (x y : Q) : Q := double (x / y).

Arguments double : simpl never.
Arguments add : simpl never.
Arguments div : simpl never.

(** The labels returned by getCrackSeverity, in Korean in the source:
    "심각" (severe), "주의" (caution), "관찰" (observe). *)
Inductive severity := Severe | Caution | Observe.

Definition severity_eqb (a b : severity) : bool :=
  match a, b with
  | Severe, Severe | Caution, Caution | Observe, Observe => true
  | _, _ => false
  end.

(** ** Exceptions *)

(** A TypeError is what the page can raise; InvalidRef marks a reference
    to an array that the store does not hold. *)
Inductive exn := TypeError | InvalidRef.

Inductive result (A : Type) :=
  | Ok (a : A)
  | Throw (e : exn).
Arguments Ok {A} a.
Arguments Throw {A} e.

Definition rbind {A B} (r : result A) (k : A -> result B) : result B :=
  match r with
  | Ok a => k a
  | Throw e => Throw e
  end.

Declare Scope result_scope.
Delimit Scope result_scope with result.
Notation "x <-r c ; k" := (rbind c (fun x => k))
  (at level 100, c at next level, right associativity) : result_scope.

(** [recv.m(...)]: a member call throws a TypeError on an absent receiver. *)
Definition invoke {A B} (recv : option A) (m : A -> result B) : result B :=
  match recv with
  | Some a => m a
  | None => Throw TypeError
  end.

(** [recv?.m(...)]: the optional chain yields undefined on an absent
    receiver and skips the rest of the chain. *)
Definition optChain {A B} (recv : option A) (m : A -> result B)
  : result (option B) :=
  match recv with
  | Some a => rbind (m a) (fun b => Ok (Some b))
  | None => Ok None
  end.

(** [x || d] for an array-valued x: an array is always truthy. *)
Definition orElse {A} (x : option A) (d : A) : A :=
  match x with
  | Some a => a
  | None => d
  end.

(** Truthiness of a possibly absent object or array. *)
Definition truthy {A} (x : option A) : bool :=
  match x with
  | Some _ => true
  | None => false
  end.

(** [Array.prototype.map] and [flatMap] with a callback that may throw. *)
Fixpoint Array_map {A B} (f : A -> result B) (l : list A) : result (list B) :=
  match l with
  | [] => Ok []
  | x :: l' =>
      (y <-r f x; ys <-r Array_map f l'; Ok (y :: ys))%result
  end.

Fixpoint flatMap {A B} (f : A -> result (list B)) (l : list A)
  : result (list B) :=
  match l with
  | [] => Ok []
  | x :: l' =>
      (ys <-r f x; zs <-r flatMap f l'; Ok (ys ++ zs))%result
  end.

(** [.filter((w) => w != null)] on an array of possibly absent numbers. *)
Fixpoint filterNonNull {A} (l : list (option A)) : list A :=
  match l with
  | [] => []
  | Some a :: l' => a :: filterNonNull l'
  | None :: l' => filterNonNull l'
  end.

(** [Math.max(w, ...ws)] on a non-empty argument list: the scan keeps the
    current highest value and replaces it by a strictly greater one.  The
    page calls Math.max only under a length guard. *)
Definition Math_max (w : Q) (ws : list Q) : Q :=
  fold_left (fun hi x => if Qlt_le_dec hi x then x else hi) ws w.

(** [Array.prototype.filter] with a callback that may throw. *)
Fixpoint Array_filter {A} (p : A -> result bool) (l : list A)
  : result (list A) :=
  match l with
  | [] => Ok []
  | x :: l' =>
      (keep <-r p x; ys <-r Array_filter p l';
       Ok (if keep then x :: ys else ys))%result
  end.

(** [Array.prototype.reduce] without an initial value: a TypeError on an
    empty array, otherwise a left fold seeded with the first element. *)
Definition Array_reduce1 {A} (f : A -> A -> A) (l : list A) : result A :=
  match l with
  | [] => Throw TypeError
  | a :: l' => Ok (fold_left f l' a)
  end.

(** [Array.prototype.sort(cmp)]: the sort is stable (ES2019), and x is
    placed after y exactly when [cmp(x, y) > 0].  For a consistent
    comparator the result is the one stable ordering, computed here by
    insertion from the right. *)
Fixpoint sortInsert {A} (cmp : A -> A -> Q) (x : A) (l : list A) : list A :=
  match l with
  | [] => [x]
  | y :: l' =>
      if Qlt_le_dec 0 (cmp x y) then y :: sortInsert cmp x l'
      else x :: y :: l'
  end.

Definition stableSort {A} (cmp : A -> A -> Q) (l : list A) : list A :=
  fold_right (sortInsert cmp) [] l.

(** ** Strings *)

(** WhiteSpace and LineTerminator code points of ECMAScript, the ones
    [String.prototype.trim] strips. *)
Definition isWhiteSpace (c : code_unit) : bool :=
  existsb (N.eqb c)
    [9; 10; 11; 12; 13; 32; 160; 5760;
     8192; 8193; 8194; 8195; 8196; 8197; 8198; 8199; 8200; 8201; 8202;
     8232; 8233; 8239; 8287; 12288; 65279]%N.

Fixpoint trimStart (s : jsstring) : jsstring :=
  match s with
  | [] => []
  | c :: s' => if isWhiteSpace c then trimStart s' else s
  end.

Definition trimEnd (s : jsstring) : jsstring := rev (trimStart (rev s)).

Definition trim (s : jsstring) : jsstring := trimEnd (trimStart s).

Fixpoint startsWith (s t : jsstring) : bool :=
  match t, s with
  | [], _ => true
  | _ :: _, [] => false
  | d :: t', c :: s' => N.eqb c d && startsWith s' t'
  end.

(** [s.includes(t)]: t occurs in s at some position. *)
Fixpoint includes (s t : jsstring) : bool :=
  startsWith s t ||
  match s with
  | [] => false
  | _ :: s' => includes s' t
  end.

(** Truthiness of a string: only the empty string is falsy. *)
Definition nonEmpty (s : jsstring) : bool :=
  match s with
  | [] => false
  | _ :: _ => true
  end.

(** Truthiness of a value that is a boolean or undefined. *)
Definition toBoolean (x : option bool) : bool :=
  match x with
  | Some b => b
  | None => false
  end.

(** ** Data model: building, waypoint, crack *)

Record crack := Crack {
  widthMm : option Q;
  crackType : jsstring;
  timestamp : jsstring
}.

Record waypoint := Waypoint {
  label : jsstring;
  cracks : option (list crack)
}.

Record building := Building {
  id : Z;
  name : option jsstring;
  address : option jsstring;
  thumbnail : option jsstring;
  waypoints : option (list waypoint)
}.

(** An entry of the ranking tables, pushed by crackStats. *)
Record stat := Stat {
  st_id : Z;
  st_name : option jsstring;
  crackCount : nat;
  maxWidth : Q;
  avgWidth : Q
}.

(** ** The store and its monad

    The arrays the page holds in React state or builds in crackStats are
    objects with identity: a reference is the index of the array in the
    store, allocation appends, and an in-place update overwrites. *)

Definition loc := nat.

Record store := Store {
  buildingArrays : list (list building);
  statArrays : list (list stat)
}.

Definition M (A : Type) : Type := store -> result (A * store).

Definition ret {A} (a : A) : M A := fun s => Ok (a, s).

Definition bind {A B} (c : M A) (k : A -> M B) : M B :=
  fun s =>
    match c s with
    | Ok (a, s') => k a s'
    | Throw e => Throw e
    end.

Definition liftR {A} (r : result A) : M A :=
  fun s =>
    match r with
    | Ok a => Ok (a, s)
    | Throw e => Throw e
    end.

Declare Scope store_scope.
Delimit Scope store_scope with M.
Notation "x <- c ;; k" := (bind c (fun x => k))
  (at level 100, c at next level, right associativity) : store_scope.
Notation "c ;; k" := (bind c (fun _ => k))
  (at level 100, right associativity) : store_scope.

Definition getBuildings (l : loc) : M (list building) :=
  fun s =>
    match buildingArrays s !! l with
    | Some bs => Ok (bs, s)
    | None => Throw InvalidRef
    end.

Definition newBuildings (bs : list building) : M loc :=
  fun s =>
    Ok (length (buildingArrays s),
        Store (buildingArrays s ++ [bs]) (statArrays s)).

Definition getStats (l : loc) : M (list stat) :=
  fun s =>
    match statArrays s !! l with
    | Some es => Ok (es, s)
    | None => Throw InvalidRef
    end.

Definition newStats (es : list stat) : M loc :=
  fun s =>
    Ok (length (statArrays s),
        Store (buildingArrays s) (statArrays s ++ [es])).

Definition setStats (l : loc) (es : list stat) : M unit :=
  fun s =>
    match statArrays s !! l with
    | Some _ => Ok (tt, Store (buildingArrays s) (<[l := es]> (statArrays s)))
    | None => Throw InvalidRef
    end.

(** [arr.push(e)] *)
Definition push (arr : loc) (e : stat) : M unit :=
  (es <- getStats arr;; setStats arr (es ++ [e]))%M.

(** [[...arr]]: a fresh array with the same elements. *)
Definition spread (arr : loc) : M loc :=
  (es <- getStats arr;; newStats es)%M.

(** [arr.sort(cmp)]: sorts arr in place and returns arr itself. *)
Definition sortInPlace (arr : loc) (cmp : stat -> stat -> Q) : M loc :=
  (es <- getStats arr;; setStats arr (stableSort cmp es);; ret arr)%M.

(** [arr.slice(0, n)]: a fresh array. *)
Definition slice0 (arr : loc) (n : nat) : M loc :=
  (es <- getStats arr;; newStats (firstn n es))%M.

(** [arr.filter(p)] on an array of buildings: a fresh array.  The
    callbacks of the page do not touch the store, so arr is read once. *)
Definition filterBuildings (arr : loc) (p : building -> result bool)
  : M loc :=
  (bs <- getBuildings arr;;
   kept <- liftR (Array_filter p bs);;
   newBuildings kept)%M.

(** [arr.forEach(f)]: the length is read once, then every index below it
    is looked up in the array as it is at that moment.  The local
    variable that the callback of the page updates is the accumulator. *)
Fixpoint forEachFrom {S} (arr : loc) (f : building -> S -> M S)
    (k n : nat) (acc : S) : M S :=
  match n with
  | O => ret acc
  | Datatypes.S n' =>
      (bs <- getBuildings arr;;
       match bs !! k with
       | Some b => acc' <- f b acc;; forEachFrom arr f (Datatypes.S k) n' acc'
       | None => forEachFrom arr f (Datatypes.S k) n' acc
       end)%M
  end.

Definition forEach {S} (arr : loc) (f : building -> S -> M S) (acc : S)
  : M S :=
  (bs <- getBuildings arr;; forEachFrom arr f 0 (length bs) acc)%M.

(** ** The building card (BuildingList.jsx, BuildingCard)

    The metrics the card derives from one building, before rendering. *)

Module BuildingCard.
Section Platform.

(** The time value of [new Date(s)]; [None] is NaN (an invalid date). *)
Variable Date_time : jsstring -> option Z.
(** [x.toFixed(digits)] *)
Variable toFixed : Q -> nat -> jsstring.

(** [{ ...c, waypointLabel: wp.label }] *)
Record flatCrack := FlatCrack {
  source : crack;
  waypointLabel : jsstring
}.

Inductive numOrString :=
  | Num (q : Q)
  | Str (s : jsstring).

Record metrics := Metrics {
  allCracks : list flatCrack;
  lastChecked : option jsstring;
  crackCount : nat;
  maxWidth : Q;
  avgWidth : numOrString;
  crackTypes : list jsstring
}.

(** [wp.cracks?.map((c) => ({ ...c, waypointLabel: wp.label })) || []] *)
Definition waypointCracks (wp : waypoint) : result (list flatCrack) :=
  (cs <-r optChain (cracks wp)
            (Array_map (fun c => Ok (FlatCrack c (label wp))));
   Ok (orElse cs []))%result.

(** [new Date(a) > new Date(b)] on time values: false when either is NaN. *)
Definition Date_gt (a b : option Z) : bool :=
  match a, b with
  | Some x, Some y => (y <? x)%Z
  | _, _ => false
  end.

(** [(a, b) => new Date(a.timestamp) > new Date(b.timestamp) ? a : b] *)
Definition later (a b : flatCrack) : flatCrack :=
  if Date_gt (Date_time (timestamp (source a)))
             (Date_time (timestamp (source b)))
  then a else b.

(** [w || 0]: null, undefined and 0 are falsy. *)
Definition orZero (w : option Q) : Q :=
  match w with
  | Some q => if Qeq_bool q 0 then 0%Q else q
  | None => 0%Q
  end.

(** [[...new Set(l)]]: the distinct values in order of first occurrence. *)
Fixpoint distinct (seen l : list jsstring) : list jsstring :=
  match l with
  | [] => []
  | x :: l' =>
      if bool_decide (x ∈ seen) then distinct seen l'
      else x :: distinct (x :: seen) l'
  end.

Definition BuildingCard (building : building) : result metrics :=
  (cracks <-r
     (if truthy (waypoints building)
      then invoke (waypoints building) (flatMap waypointCracks)
      else Ok []);
   lastChecked <-r
     (if (0 <? length cracks)%nat
      then (c <-r Array_reduce1 later cracks;
            Ok (Some (timestamp (source c))))
      else Ok None);
   let crackCount := length cracks in
   let maxWidth :=
     match map (fun c => orZero (widthMm (source c))) cracks with
     | w :: ws => Math_max w ws
     | [] => 0%Q
     end in
   let avgWidth :=
     if (0 <? length cracks)%nat
     then Str (toFixed
                 (div (fold_left
                         (fun s c => add s (orZero (widthMm (source c))))
                         cracks 0%Q)
                      (inject_Z (Z.of_nat crackCount)))
                 2)
     else Num 0 in
   let crackTypes := distinct [] (map (fun c => crackType (source c)) cracks) in
   Ok (Metrics cracks lastChecked crackCount maxWidth avgWidth crackTypes)
  )%result.

End Platform.
End BuildingCard.

(** ** The page (BuildingList.jsx, BuildingList) *)

(** ** Severity classifier (BuildingList.jsx, getCrackSeverity) *)

Definition getCrackSeverity (maxWidthMm : option Q) : severity :=
  match maxWidthMm with
  | None => Observe
  | Some w =>
      if Qle_bool (double 0.3) w then Severe
      else if Qle_bool (double 0.2) w then Caution
      else Observe
  end.

(** ** Width extraction shared by the severity filter and crackStats

    [b.waypoints
       ? b.waypoints.flatMap((wp) =>
           wp.cracks?.map((c) => c.widthMm).filter((w) => w != null) || [])
       : []] *)

Definition waypointWidths (wp : waypoint) : result (list Q) :=
  (ws <-r optChain (cracks wp)
            (fun cs => Ok (filterNonNull (map widthMm cs)));
   Ok (orElse ws []))%result.

Definition widthsOf (b : building) : result (list Q) :=
  if truthy (waypoints b)
  then invoke (waypoints b) (flatMap waypointWidths)
  else Ok [].

Section BuildingList.

Variable toLowerCase : jsstring -> jsstring.

(** The React state of the page.  [buildings] and [filteredBuildings]
    refer to arrays of the store; [error] is the message of a failed
    fetch. *)
Record pageState := PageState {
  buildings : loc;
  filteredBuildings : loc;
  loading : bool;
  error : option jsstring;
  searchTerm : jsstring;
  activeFilters : list severity
}.

(** The callback of the text filter:
    [!term || b.name?.toLowerCase().includes(term)
           || b.address?.toLowerCase().includes(term)] *)
Definition matchesSearch (term : jsstring) (b : building) : result bool :=
  if negb (nonEmpty term) then Ok true
  else
    (n <-r optChain (name b) (fun s => Ok (includes (toLowerCase s) term));
     if toBoolean n then Ok true
     else
       (a <-r optChain (address b)
                (fun s => Ok (includes (toLowerCase s) term));
        Ok (toBoolean a)))%result.

(** The severity of a building as the severity filter computes it. *)
Definition buildingSeverity (b : building) : result severity :=
  (widths <-r widthsOf b;
   let maxWidth :=
     match widths with
     | w :: ws => Some (Math_max w ws)
     | [] => None
     end in
   Ok (getCrackSeverity maxWidth))%result.

(** The callback of the severity filter; it ends with
    [activeFilters.includes(severity)]. *)
Definition matchesSeverity (activeFilters : list severity) (b : building)
  : result bool :=
  (severity <-r buildingSeverity b;
   Ok (existsb (severity_eqb severity) activeFilters))%result.

(** Step 1 of the filter effect, the text filter. *)
Definition textFilter (buildings : loc) (searchTerm : jsstring) : M loc :=
  let term := toLowerCase (trim searchTerm) in
  filterBuildings buildings (matchesSearch term).

(** Step 2 of the filter effect, the severity filter. *)
Definition severityFilter (activeFilters : list severity) (result : loc)
  : M loc :=
  if (0 <? length activeFilters)%nat
  then filterBuildings result (matchesSeverity activeFilters)
  else ret result.

(** The body of the filter effect after its guard; it returns the array
    handed to setFilteredBuildings. *)
Definition filterPipeline (buildings : loc) (searchTerm : jsstring)
    (activeFilters : list severity) : M loc :=
  (result <- textFilter buildings searchTerm;;
   result <- severityFilter activeFilters result;;
   ret result)%M.

Definition truthyString (x : option jsstring) : bool :=
  match x with
  | Some s => nonEmpty s
  | None => false
  end.

Definition filterEffect (st : pageState) : M pageState :=
  if loading st || truthyString (error st) then ret st
  else
    (result <- filterPipeline (buildings st) (searchTerm st)
                 (activeFilters st);;
     ret (PageState (buildings st) result (loading st) (error st)
            (searchTerm st) (activeFilters st)))%M.

(** *** crackStats *)

Inductive sortKey := KCrackCount | KMaxWidth | KAvgWidth.

(** [e[key]] *)
Definition getKey (key : sortKey) (e : stat) : Q :=
  match key with
  | KCrackCount => inject_Z (Z.of_nat (crackCount e))
  | KMaxWidth => maxWidth e
  | KAvgWidth => avgWidth e
  end.

(** [(a, b) => b[key] - a[key]]; the sort reads the sign of the
    result only, and the difference of two doubles has the sign of the
    exact difference, which is taken here. *)
Definition byKeyDesc (key : sortKey) (a b : stat) : Q :=
  (getKey key b - getKey key a)%Q.

(** [[...stats].sort((a, b) => b[key] - a[key]).slice(0, 3)] *)
Definition sortBy (stats : loc) (key : sortKey) : M loc :=
  (copy <- spread stats;;
   s <- sortInPlace copy (byKeyDesc key);;
   slice0 s 3)%M.

Record crackStatsResult := CrackStatsResult {
  totalCracks : nat;
  sortedByCount : loc;
  sortedByWidth : loc;
  sortedByAvgWidth : loc
}.

(** The callback of [buildings.forEach]; the accumulator is totalCracks. *)
Definition visitBuilding (stats : loc) (b : building) (totalCracks : nat)
  : M nat :=
  (widths <- liftR (widthsOf b);;
   let count := length widths in
   let totalCracks := (totalCracks + count)%nat in
   match widths with
   | w :: ws =>
       push stats
         (Stat (id b) (name b) count (Math_max w ws)
               (div (fold_left add widths 0%Q)
                    (inject_Z (Z.of_nat count))));;
       ret totalCracks
   | [] => ret totalCracks
   end)%M.

Definition crackStats (buildings : loc) : M crackStatsResult :=
  (stats <- newStats [];;
   totalCracks <- forEach buildings (visitBuilding stats) 0%nat;;
   byCount <- sortBy stats KCrackCount;;
   byWidth <- sortBy stats KMaxWidth;;
   byAvg <- sortBy stats KAvgWidth;;
   ret (CrackStatsResult totalCracks byCount byWidth byAvg))%M.

End BuildingList.

(** *** The filter buttons

    [setActiveFilters((prev) =>
       prev.includes(f) ? prev.filter((x) => x !== f) : [...prev, f])],
    f being the label of the button clicked. *)

Definition toggleFilter (f : severity) (prev : list severity)
  : list severity :=
  if existsb (severity_eqb f) prev
  then List.filter (fun x => negb (severity_eqb x f)) prev
  else prev ++ [f].

Definition onFilterClick (f : severity) (st : pageState) : pageState :=
  PageState (buildings st) (filteredBuildings st) (loading st) (error st)
            (searchTerm st) (toggleFilter f (activeFilters st)).

(** *** The initial load

    [fetch(url)
       .then((res) => { if (!res.ok) throw new Error("..."); return res.json(); })
       .then((data) => { setBuildings(data); setLoading(false); })
       .catch((e) => { setError(e.message); setLoading(false); })]

    A promise settles with a value or with an error, of which the page
    reads the message. *)

Inductive settled (A : Type) :=
  | Fulfilled (a : A)
  | Rejected (message : jsstring).
Arguments Fulfilled {A} a.
Arguments Rejected {A} message.

(** What the page reads of a response: [res.ok] and how [res.json()]
    settles. *)
Record response := Response {
  ok : bool;
  json : settled (list building)
}.

(** "건물 데이터 로드 실패", the message of the error thrown on a response
    that is not ok. *)
Definition loadFailureMessage : jsstring :=
  [44148; 47932; 32; 45936; 51060; 53552; 32; 47196; 46300; 32;
   49892; 54056]%N.

(** The state of the page at its first render: two empty arrays, the
    page loading, no error, no search term, no active filter. *)
Definition initialStore : store := Store [[]; []] [].

Definition initialState : pageState :=
  PageState 0 1 true None [] [].

(** The state updates of the promise chain, given how fetch settled.
    The array parsed from the body is a new array of the store. *)
Definition loadEffect (fetched : settled response) (st : pageState)
  : M pageState :=
  let parsed : settled (list building) :=
    match fetched with
    | Fulfilled res =>
        if negb (ok res) then Rejected loadFailureMessage else json res
    | Rejected message => Rejected message
    end in
  match parsed with
  | Fulfilled data =>
      (arr <- newBuildings data;;
       ret (PageState arr (filteredBuildings st) false (error st)
              (searchTerm st) (activeFilters st)))%M
  | Rejected message =>
      ret (PageState (buildings st) (filteredBuildings st) false
             (Some message) (searchTerm st) (activeFilters st))
  end.

(** ** The development proxy (vite.config.js)

    [rewrite: (path) => path.replace(/^\/api/, "")]: the pattern is
    anchored at the start, so that at most the leading "/api" goes. *)

Definition rewrite (path : jsstring) : jsstring :=
  if startsWith path (str "/api") then skipn 4 path else path.

(** * The records of a building

    The waypoints, crack records and widths of a building as the
    specification speaks of them, defined on the data alone: an absent
    array holds nothing, a crack record without width has no width. *)

Definition waypointList (b : building) : list waypoint :=
  match waypoints b with
  | Some ws => ws
  | None => []
  end.

Definition crackList (wp : waypoint) : list crack :=
  match cracks wp with
  | Some cs => cs
  | None => []
  end.

(** Every crack record of a building, waypoint by waypoint. *)
Definition buildingCracks (b : building) : list crack :=
  flat_map crackList (waypointList b).

(** The widths of the crack records that have one, in their order. *)
Fixpoint widthsIn (cs : list crack) : list Q :=
  match cs with
  | [] => []
  | c :: cs' =>
      match widthMm c with
      | Some w => w :: widthsIn cs'
      | None => widthsIn cs'
      end
  end.

Definition nonNullWidths (b : building) : list Q :=
  widthsIn (buildingCracks b).

(** w is the width of a crack record of a waypoint of the building. *)
Definition isWidthOf (b : building) (w : Q) : Prop :=
  exists ws wp cs c,
    waypoints b = Some ws /\ In wp ws /\
    cracks wp = Some cs /\ In c cs /\
    widthMm c = Some w.

(** The sum of numbers, added up from 0 in their order, and their mean:
    each sum and the quotient are doubles. *)
Fixpoint sumFrom (acc : Q) (ws : list Q) : Q :=
  match ws with
  | [] => acc
  | w :: ws' => sumFrom (add acc w) ws'
  end.

Definition meanOf (ws : list Q) : Q :=
  div (sumFrom 0 ws) (inject_Z (Z.of_nat (length ws))).

(** * What the computations return

    The values the runs of the page's computations return, as pure
    functions of the building list; the lemmas below prove that the
    runs return them. *)

(** The entry crackStats pushes for a building, if it pushes one. *)
Definition statOf (b : building) : option stat :=
  match nonNullWidths b with
  | w :: ws =>
      Some (Stat (id b) (name b) (length (w :: ws)) (Math_max w ws)
                 (div (fold_left add (w :: ws) 0%Q)
                      (inject_Z (Z.of_nat (length (w :: ws))))))
  | [] => None
  end.

(** The entries crackStats pushes, in the order it pushes them. *)
Definition statsOf (bs : list building) : list stat := omap statOf bs.

(** The total crackStats accumulates. *)
Fixpoint widthCount (bs : list building) : nat :=
  match bs with
  | [] => 0
  | b :: bs' => length (nonNullWidths b) + widthCount bs'
  end.

(** The three rankings as lists. *)
Definition ranking (key : sortKey) (bs : list building) : list stat :=
  firstn 3 (stableSort (byKeyDesc key) (statsOf bs)).

(** The maximum width the severity filter classifies, null without widths. *)
Definition maxWidthOf (b : building) : option Q :=
  match nonNullWidths b with
  | w :: ws => Some (Math_max w ws)
  | [] => None
  end.

(** The severity the severity filter computes for a building. *)
Definition severityOf (b : building) : severity :=
  getCrackSeverity (maxWidthOf b).

Section TextRun.
Variable toLowerCase : jsstring -> jsstring.

(** Whether a possibly absent field holds the term, lower-cased. *)
Definition fieldHit (term : jsstring) (field : option jsstring) : bool :=
  match field with
  | Some s => includes (toLowerCase s) term
  | None => false
  end.

(** The value of the callback of the text filter. *)
Definition searchHit (term : jsstring) (b : building) : bool :=
  negb (nonEmpty term) || fieldHit term (name b) || fieldHit term (address b).

(** The list the pipeline hands to setFilteredBuildings. *)
Definition filtered (term : jsstring) (fs : list severity)
    (bs : list building) : list building :=
  let hits := List.filter (searchHit (toLowerCase (trim term))) bs in
  match fs with
  | [] => hits
  | _ :: _ =>
      List.filter (fun b => existsb (severity_eqb (severityOf b)) fs) hits
  end.

End TextRun.

(** The flattened crack list of the card. *)
Definition cardCracks (b : building) : list BuildingCard.flatCrack :=
  flat_map (fun wp => map (fun c => BuildingCard.FlatCrack c (label wp))
                          (crackList wp))
           (waypointList b).

(** The width the card takes for a crack: 0 when it has none. *)
Definition cardWidth (c : BuildingCard.flatCrack) : Q :=
  BuildingCard.orZero (widthMm (BuildingCard.source c)).

Section CardRun.
Variable Date_time : jsstring -> option Z.
Variable toFixed : Q -> nat -> jsstring.

(** The time value of the timestamp of a crack. *)
Definition timeOf (c : BuildingCard.flatCrack) : option Z :=
  Date_time (timestamp (BuildingCard.source c)).

(** The metrics of the card as a function of its flattened crack list. *)
Definition cardMetrics (cs : list BuildingCard.flatCrack)
  : BuildingCard.metrics :=
  BuildingCard.Metrics cs
    (match cs with
     | c :: cs' =>
         Some (timestamp
                 (BuildingCard.source
                    (fold_left (BuildingCard.later Date_time) cs' c)))
     | [] => None
     end)
    (length cs)
    (match map cardWidth cs with
     | w :: ws => Math_max w ws
     | [] => 0%Q
     end)
    (match cs with
     | _ :: _ =>
         BuildingCard.Str
           (toFixed
              (div (fold_left (fun s c => add s (cardWidth c)) cs 0%Q)
                   (inject_Z (Z.of_nat (length cs)))) 2)
     | [] => BuildingCard.Num 0
     end)
    (BuildingCard.distinct []
       (map (fun c => crackType (BuildingCard.source c)) cs)).

End CardRun.

(** * Specification vocabulary

    The words of the specification, as definitions of their own: they
    are what the theorems compare the page with. *)

(** A list in descending order of a key. *)
Definition descending {A} (key : A -> Q) (l : list A) : Prop :=
  StronglySorted (fun a b => (key b <= key a)%Q) l.

(** e is the entry of the building b. *)
Definition entryOf (e : stat) (b : building) : Prop :=
  st_id e = id b /\ st_name e = name b /\
  crackCount e = length (nonNullWidths b).

(** A ranking of the entries [input] by [key]: at most three entries of
    the input, in descending order of the key, the entries of one key
    value being the first ones of the input with that value, in input
    order; and no entry has a crack count of zero. *)
Definition isRanking (key : sortKey) (input r : list stat) : Prop :=
  (length r <= 3)%nat /\
  descending (getKey key) r /\
  (forall e, In e r -> In e input) /\
  (forall k,
      List.filter (fun e => Qeq_bool (getKey key e) k) r
      `prefix_of` List.filter (fun e => Qeq_bool (getKey key e) k) input) /\
  (forall e, In e r -> (0 < crackCount e)%nat).

(** m is a maximum of the widths ws. *)
Definition isMaximum (m : Q) (ws : list Q) : Prop :=
  (exists w, In w ws /\ (w == m)%Q) /\ forall w, In w ws -> (w <= m)%Q.

(** e carries the metrics of the building b: its id and name, the
    number of its widths, their maximum and their mean. *)
Definition carriesMetrics (e : stat) (b : building) : Prop :=
  entryOf e b /\
  isMaximum (maxWidth e) (nonNullWidths b) /\
  avgWidth e = meanOf (nonNullWidths b).

(** The severity filter keeps b under the active filters fs: the maximum
    of the non-null widths of b classifies to a label of fs, a building
    without a numeric width counting as "observe". *)
Definition passesSeverity (fs : list severity) (b : building) : Prop :=
  ((forall w, ~ isWidthOf b w) /\ In Observe fs) \/
  (exists m, isWidthOf b m /\
             (forall w, isWidthOf b w -> (w <= m)%Q) /\
             In (getCrackSeverity (Some m)) fs).

(** The number of crack records of the building list, across all
    buildings and all waypoints. *)
Definition recordCount (bs : list building) : nat :=
  length (flat_map buildingCracks bs).

(** The crack record carries a width. *)
Definition hasWidth (c : crack) : bool :=
  match widthMm c with
  | Some _ => true
  | None => false
  end.

(** What one building adds to the total: its crack records with a width. *)
Definition measuredCount (b : building) : nat :=
  length (List.filter hasWidth (buildingCracks b)).

Section TextVocabulary.
Variable toLowerCase : jsstring -> jsstring.

(** s contains t as a substring, case ignored. *)
Definition containsIgnoringCase (s t : jsstring) : Prop :=
  exists pre post, toLowerCase s = pre ++ toLowerCase t ++ post.

(** The name or the address of b contains t, case ignored. *)
Definition mentions (t : jsstring) (b : building) : Prop :=
  exists field, (name b = Some field \/ address b = Some field) /\
                containsIgnoringCase field t.

End TextVocabulary.


(** The building with every absent waypoints and cracks field replaced
    by an empty array. *)
Definition presentWaypoint (wp : waypoint) : waypoint :=
  Waypoint (label wp) (Some (crackList wp)).

Definition present (b : building) : building :=
  Building (id b) (name b) (address b) (thumbnail b)
           (Some (map presentWaypoint (waypointList b))).

(** The building without its crack records that have no width. *)
Definition measuredWaypoint (wp : waypoint) : waypoint :=
  Waypoint (label wp) (Some (List.filter hasWidth (crackList wp))).

Definition measured (b : building) : building :=
  Building (id b) (name b) (address b) (thumbnail b)
           (Some (map measuredWaypoint (waypointList b))).

(** Every array of s is in s', at its place and with its elements. *)
Definition preserved (s s' : store) : Prop :=
  buildingArrays s `prefix_of` buildingArrays s' /\
  statArrays s `prefix_of` statArrays s'.

(** The order of the severities: observe, caution, severe. *)
Definition severityRank (v : severity) : nat :=
  match v with
  | Observe => 0
  | Caution => 1
  | Severe => 2
  end.

(** The labels active after the buttons fs were clicked one after the
    other, none being active at first. *)
Definition afterClicks (fs : list severity) : list severity :=
  fold_left (fun active f => toggleFilter f active) fs [].

(** The filter pipeline, run on the array arr of the store s with a
    search term and active filters, hands over an array holding l. *)
Definition pipelineGives (toLowerCase : jsstring -> jsstring) (arr : loc)
    (term : jsstring) (fs : list severity) (s : store)
    (l : list building) : Prop :=
  exists out s',
    filterPipeline toLowerCase arr term fs s = Ok (out, s') /\
    buildingArrays s' !! out = Some l.

(** crackStats, run on the array arr of the store s, returns the total
    and three arrays holding the rankings by count, by maximum width and
    by average width. *)
Definition statsGive (arr : loc) (s : store) (total : nat)
    (byCount byWidth byAvg : list stat) : Prop :=
  exists res s',
    crackStats arr s = Ok (res, s') /\
    totalCracks res = total /\
    statArrays s' !! sortedByCount res = Some byCount /\
    statArrays s' !! sortedByWidth res = Some byWidth /\
    statArrays s' !! sortedByAvgWidth res = Some byAvg.

(** r holds the top three of the entries by key: it is a part of the
    entries, of three entries or of all when there are fewer, and no
    entry left out has a greater key than an entry of r. *)
Definition topThree (key : sortKey) (entries r : list stat) : Prop :=
  exists rest,
    Permutation (r ++ rest) entries /\
    length r = Nat.min 3 (length entries) /\
    forall x y, In x r -> In y rest -> (getKey key y <= getKey key x)%Q.

(** The building has a crack record that carries a width. *)
Definition hasMeasuredCrack (b : building) : bool :=
  existsb hasWidth (buildingCracks b).

(** The crack count the card of a building shows. *)
Definition cardCount (Date_time : jsstring -> option Z)
    (toFixed : Q -> nat -> jsstring) (b : building) : nat :=
  match BuildingCard.BuildingCard Date_time toFixed b with
  | Ok m => BuildingCard.crackCount m
  | Throw _ => 0
  end.

(** The load fails with a message: fetch itself is rejected, or the
    response is not ok, or its body does not parse. *)
Definition loadFails (fetched : settled response) (message : jsstring)
  : Prop :=
  fetched = Rejected message \/
  exists res,
    fetched = Fulfilled res /\
    ((ok res = false /\ message = loadFailureMessage) \/
     (ok res = true /\ json res = Rejected message)).

(** * Stand-ins for the platform functions, on the inputs where they
      agree with the platform *)

(** [toLowerCase] on strings of ASCII characters: the letters A to Z
    move to a to z, every other code unit stays. *)
Definition asciiLowerCase (s : jsstring) : jsstring :=
  map (fun c => if ((65 <=? c) && (c <=? 90))%N then (c + 32)%N else c) s.

(** The decimal digits of a natural number as code units. *)
Fixpoint digitsOf (u : Decimal.uint) : jsstring :=
  match u with
  | Decimal.Nil => []
  | Decimal.D0 u' => 48%N :: digitsOf u'
  | Decimal.D1 u' => 49%N :: digitsOf u'
  | Decimal.D2 u' => 50%N :: digitsOf u'
  | Decimal.D3 u' => 51%N :: digitsOf u'
  | Decimal.D4 u' => 52%N :: digitsOf u'
  | Decimal.D5 u' => 53%N :: digitsOf u'
  | Decimal.D6 u' => 54%N :: digitsOf u'
  | Decimal.D7 u' => 55%N :: digitsOf u'
  | Decimal.D8 u' => 56%N :: digitsOf u'
  | Decimal.D9 u' => 57%N :: digitsOf u'
  end.

(** [x.toFixed(digits)] below 10^21: the nearest multiple of 10^-digits
    of the magnitude, the larger one on a tie, written with that many
    decimals after the sign. *)
Definition decimalToFixed (x : Q) (digits : nat) : jsstring :=
  let n := Qfloor (Qabs x * inject_Z (10 ^ Z.of_nat digits) + (1 # 2))%Q in
  let ds := digitsOf (N.to_uint (Z.to_N n)) in
  let ds := repeat 48%N (Datatypes.S digits - length ds) ++ ds in
  let whole := firstn (length ds - digits) ds in
  let frac := skipn (length ds - digits) ds in
  (if Qlt_le_dec x 0 then [45%N] else [])
  ++ whole ++ (match digits with O => [] | _ => 46%N :: frac end).

(** The number a run of decimal digits denotes. *)
Fixpoint numberOf (acc : Z) (s : jsstring) : option Z :=
  match s with
  | [] => Some acc
  | c :: s' =>
      if ((48 <=? c) && (c <=? 57))%N
      then numberOf (10 * acc + Z.of_N (c - 48)) s'
      else None
  end.

(** The time value of [new Date("YYYY-MM-DD")], in milliseconds since
    1970-01-01 UTC, for a day between 1 and 28; NaN on anything else. *)
Definition isoDateTime (s : jsstring) : option Z :=
  match s with
  | [y1; y2; y3; y4; 45%N; m1; m2; 45%N; d1; d2] =>
      match numberOf 0 [y1; y2; y3; y4], numberOf 0 [m1; m2],
            numberOf 0 [d1; d2] with
      | Some y, Some m, Some d =>
          if ((1 <=? m) && (m <=? 12) && (1 <=? d) && (d <=? 28))%Z
          then
            let y' := (if m <=? 2 then y - 1 else y)%Z in
            let era := (y' / 400)%Z in
            let yoe := (y' - era * 400)%Z in
            let doy := ((153 * ((m + 9) mod 12) + 2) / 5 + d - 1)%Z in
            let doe := (yoe * 365 + yoe / 4 - yoe / 100 + doy)%Z in
            Some ((era * 146097 + doe - 719468) * 86400000)%Z
          else None
      | _, _, _ => None
      end
  | _ => None
  end.

(** * Buildings for the examples

    The widths are doubles, as they come out of the JSON of the
    response. *)

Definition demoCrack (w : option Q) : crack :=
  Crack w (str "crack") (str "2024-05-01").

Definition demoA : building :=
  Building 1 (Some (str "A")) None None
    (Some [Waypoint (str "wp1") (Some [demoCrack (Some (double 0.1));
                                      demoCrack (Some (double 0.35))])]).

Definition demoB : building :=
  Building 2 (Some (str "B")) None None None.

(** A building whose only crack record has no width. *)
Definition unmeasured : building :=
  Building 7 (Some (str "C")) None None
    (Some [Waypoint (str "wp1") (Some [demoCrack None])]).

(** A building with one crack of width 0.5 and one crack without width. *)
Definition demoMixed : building :=
  Building 3 (Some (str "D")) (Some (str "Seoul")) None
    (Some [Waypoint (str "wp1") (Some [demoCrack None]);
           Waypoint (str "wp2") None;
           Waypoint (str "wp3")
             (Some [Crack (Some (double 0.5)) (str "crack")
                          (str "2024-06-15")])]).

(** A building without name and without address. *)
Definition demoNameless : building :=
  Building 4 None None None
    (Some [Waypoint (str "wp1") (Some [demoCrack (Some (double 0.25))])]).

(** A building with three cracks in two waypoints: the second has a
    timestamp that is not a date, and the type of the third is the type
    of the first. *)
Definition demoTyped : building :=
  Building 6 (Some (str "T")) None None
    (Some [Waypoint (str "wp1")
             (Some [Crack (Some (double 0.1)) (str "hairline")
                          (str "2024-06-15");
                    Crack None (str "shear") (str "yesterday")]);
           Waypoint (str "wp2")
             (Some [Crack (Some (double 0.2)) (str "hairline")
                          (str "2024-05-01")])]).

(** The building with the given id and the given widths, in one
    waypoint. *)
Definition demoWidths (i : Z) (ws : list Q) : building :=
  Building i (Some (str "R")) None None
    (Some [Waypoint (str "wp1")
             (Some (map (fun w => demoCrack (Some (double w))) ws))]).

(** The widths of [demoNameless] and two more. *)
Definition demoWide : building := demoWidths 5 [0.1; 0.25; 0.35]%Q.

(** Four buildings with widths and one without crack: three entries
    have one crack, and the mean of 0.1, 0.2 and 0.3 is the double
    0.20000000000000004, above 0.2. *)
Definition demoRanked : list building :=
  [demoWidths 1 [0.2]%Q; demoWidths 2 [0.1; 0.2; 0.3]%Q;
   demoWidths 3 [0.5]%Q; demoB; demoWidths 4 [0.4]%Q].

Definition demoList : list building :=
  [demoA; demoMixed; demoB; demoNameless].

Definition demoStore : store := Store [demoList] [].

(** * Lemmas *)

Lemma severity_eqb_eq a b : severity_eqb a b = true <-> a = b.
Proof. destruct a, b; simpl; split; congruence. Qed.

Lemma filterNonNull_app {A} (l1 l2 : list (option A)) :
  filterNonNull (l1 ++ l2) = filterNonNull l1 ++ filterNonNull l2.
Proof.
  induction l1 as [|[a|] l1 IH]; simpl; [reflexivity | now rewrite IH | exact IH].
Qed.

Lemma In_filterNonNull w cs :
  In w (filterNonNull (map widthMm cs))
  <-> exists c, In c cs /\ widthMm c = Some w.
Proof.
  induction cs as [|c cs IH]; simpl.
  - split; [intros [] | intros (c & H & _); destruct H].
  - destruct (widthMm c) as [w'|] eqn:Hc; simpl; rewrite ?IH; split.
    + intros [<-|(c' & H1 & H2)]; [exists c; split; [now left|exact Hc]|].
      exists c'. split; [now right | exact H2].
    + intros (c' & [<-|H1] & H2); [left; congruence|].
      right. now exists c'.
    + intros (c' & H1 & H2). exists c'. split; [now right | exact H2].
    + intros (c' & [<-|H1] & H2); [congruence|]. now exists c'.
Qed.

Lemma flatMap_total {A B} (f : A -> result (list B)) (g : A -> list B) l :
  (forall x, In x l -> f x = Ok (g x)) ->
  flatMap f l = Ok (flat_map g l).
Proof.
  induction l as [|x l IH]; intros Hf; simpl; [reflexivity|].
  rewrite Hf by (left; reflexivity). simpl.
  rewrite IH by (intros y Hy; apply Hf; right; exact Hy).
  reflexivity.
Qed.

Lemma Array_map_total {A B} (f : A -> B) l :
  Array_map (fun x => Ok (f x)) l = Ok (map f l).
Proof.
  induction l as [|x l IH]; simpl; [reflexivity|]. now rewrite IH.
Qed.

Lemma Array_filter_total {A} (p : A -> result bool) (q : A -> bool) l :
  (forall x, In x l -> p x = Ok (q x)) ->
  Array_filter p l = Ok (List.filter q l).
Proof.
  induction l as [|x l IH]; intros Hp; simpl; [reflexivity|].
  rewrite Hp by (left; reflexivity). simpl.
  rewrite IH by (intros y Hy; apply Hp; right; exact Hy).
  simpl. now destruct (q x).
Qed.

Lemma waypointWidths_ok wp :
  waypointWidths wp = Ok (filterNonNull (map widthMm (crackList wp))).
Proof.
  unfold waypointWidths, crackList. now destruct (cracks wp).
Qed.

Lemma filterNonNull_flat_map (ws : list waypoint) :
  flat_map (fun wp => filterNonNull (map widthMm (crackList wp))) ws
  = filterNonNull (map widthMm (flat_map crackList ws)).
Proof.
  induction ws as [|wp ws IH]; simpl; [reflexivity|].
  now rewrite map_app, filterNonNull_app, IH.
Qed.

Lemma widthsIn_eq cs : widthsIn cs = filterNonNull (map widthMm cs).
Proof.
  induction cs as [|c cs IH]; simpl; [reflexivity|].
  destruct (widthMm c); now rewrite IH.
Qed.

Lemma nonNullWidths_eq b :
  nonNullWidths b = filterNonNull (map widthMm (buildingCracks b)).
Proof. apply widthsIn_eq. Qed.

Lemma widthsOf_ok b : widthsOf b = Ok (nonNullWidths b).
Proof.
  rewrite nonNullWidths_eq. unfold widthsOf, buildingCracks, waypointList.
  destruct (waypoints b) as [ws|]; simpl; [|reflexivity].
  rewrite (flatMap_total _ (fun wp => filterNonNull (map widthMm (crackList wp))))
    by (intros; apply waypointWidths_ok).
  now rewrite filterNonNull_flat_map.
Qed.

Lemma In_nonNullWidths b w : In w (nonNullWidths b) <-> isWidthOf b w.
Proof.
  rewrite nonNullWidths_eq, In_filterNonNull.
  unfold isWidthOf, buildingCracks, waypointList. split.
  - intros (c & Hc & Hw). apply in_flat_map in Hc as (wp & Hwp & Hc).
    destruct (waypoints b) as [ws|]; [|destruct Hwp].
    unfold crackList in Hc. destruct (cracks wp) as [cs|] eqn:Hcs; [|destruct Hc].
    now exists ws, wp, cs, c.
  - intros (ws & wp & cs & c & -> & Hwp & Hcs & Hc & Hw).
    exists c. split; [|exact Hw]. apply in_flat_map. exists wp.
    split; [exact Hwp|]. unfold crackList. now rewrite Hcs.
Qed.

Section Sorting.
Context {A : Type} (key : A -> Q).

(** The comparator [(a, b) => key(b) - key(a)]. *)
Let cmp (a b : A) : Q := (key b - key a)%Q.

Lemma sortInsert_perm x l : Permutation (sortInsert cmp x l) (x :: l).
Proof.
  induction l as [|y l IH]; simpl; [reflexivity|].
  destruct (Qlt_le_dec 0 (cmp x y)); [|reflexivity].
  rewrite IH. apply perm_swap.
Qed.

Lemma stableSort_perm l : Permutation (stableSort cmp l) l.
Proof.
  induction l as [|x l IH]; simpl; [reflexivity|].
  rewrite sortInsert_perm. now constructor.
Qed.

Lemma sortInsert_descending x l :
  descending key l -> descending key (sortInsert cmp x l).
Proof.
  unfold descending.
  induction l as [|y l IH]; intros Hl; simpl.
  - repeat constructor.
  - apply StronglySorted_inv in Hl as [Hl Hy].
    destruct (Qlt_le_dec 0 (cmp x y)) as [Hgt|Hle]; unfold cmp in *.
    + constructor; [now apply IH|].
      eapply Permutation_Forall; [symmetry; apply sortInsert_perm|].
      constructor; [lra | exact Hy].
    + constructor; [now constructor|].
      constructor; [lra|].
      eapply List.Forall_impl; [|exact Hy]. simpl. intros z Hz. lra.
Qed.

Lemma stableSort_descending l : descending key (stableSort cmp l).
Proof.
  induction l as [|x l IH]; simpl; [constructor|].
  now apply sortInsert_descending.
Qed.

(** Stability: the entries with one given key keep their input order. *)
Lemma sortInsert_stable k x l :
  List.filter (fun e => Qeq_bool (key e) k) (sortInsert cmp x l)
  = List.filter (fun e => Qeq_bool (key e) k) (x :: l).
Proof.
  induction l as [|y l IH]; [reflexivity|].
  cbn [sortInsert].
  destruct (Qlt_le_dec 0 (cmp x y)) as [Hgt|Hle]; [|reflexivity].
  unfold cmp in Hgt. cbn [List.filter] in *. rewrite IH.
  destruct (Qeq_bool (key x) k) eqn:Hx; [|reflexivity].
  destruct (Qeq_bool (key y) k) eqn:Hy; [|reflexivity].
  apply Qeq_bool_eq in Hx, Hy. lra.
Qed.

Lemma stableSort_stable k l :
  List.filter (fun e => Qeq_bool (key e) k) (stableSort cmp l)
  = List.filter (fun e => Qeq_bool (key e) k) l.
Proof.
  induction l as [|x l IH]; [reflexivity|].
  cbn [stableSort fold_right]. fold (stableSort cmp l).
  rewrite sortInsert_stable. cbn [List.filter]. now rewrite IH.
Qed.

End Sorting.

Lemma filter_firstn_prefix {A} (p : A -> bool) n (l : list A) :
  List.filter p (firstn n l) `prefix_of` List.filter p l.
Proof.
  exists (List.filter p (skipn n l)).
  now rewrite <- List.filter_app, firstn_skipn.
Qed.

Lemma descending_firstn {A} (key : A -> Q) n l :
  descending key l -> descending key (firstn n l).
Proof.
  unfold descending. revert n.
  induction l as [|x l IH]; intros [|n] Hl; simpl; try constructor.
  - apply IH. now apply StronglySorted_inv in Hl.
  - apply StronglySorted_inv in Hl as [_ Hx].
    rewrite List.Forall_forall in *. intros y Hy. apply Hx.
    rewrite <- (firstn_skipn n l). apply in_or_app. now left.
Qed.

(** * The store operations, run *)

Lemma bind_run {A B} (c : M A) (k : A -> M B) s a s' :
  c s = Ok (a, s') -> bind c k s = k a s'.
Proof. intros H. unfold bind. now rewrite H. Qed.

Lemma filterBuildings_run arr p q s bs :
  buildingArrays s !! arr = Some bs ->
  (forall x, In x bs -> p x = Ok (q x)) ->
  filterBuildings arr p s
  = Ok (length (buildingArrays s),
        Store (buildingArrays s ++ [List.filter q bs]) (statArrays s)).
Proof.
  intros Hb Hp. unfold filterBuildings, bind, getBuildings, liftR, newBuildings.
  rewrite Hb. now rewrite (Array_filter_total p q bs Hp).
Qed.

Lemma visitBuilding_run stats b acc s es :
  statArrays s !! stats = Some es ->
  visitBuilding stats b acc s
  = Ok ((acc + length (nonNullWidths b))%nat,
        Store (buildingArrays s)
              (<[stats := es ++ statsOf [b]]> (statArrays s))).
Proof.
  intros Hs. unfold visitBuilding, bind, liftR, statsOf, statOf. simpl.
  rewrite widthsOf_ok.
  destruct (nonNullWidths b) as [|w ws] eqn:Hw.
  - unfold ret. rewrite app_nil_r, list_insert_id by exact Hs.
    now destruct s.
  - unfold push, bind, getStats, setStats, ret. rewrite Hs. simpl.
    now rewrite Hs.
Qed.

Lemma forEachFrom_visit stats arr bs n : forall k acc s es,
  buildingArrays s !! arr = Some bs ->
  statArrays s !! stats = Some es ->
  (k + n = length bs)%nat ->
  forEachFrom arr (visitBuilding stats) k n acc s
  = Ok ((acc + widthCount (drop k bs))%nat,
        Store (buildingArrays s)
              (<[stats := es ++ statsOf (drop k bs)]> (statArrays s))).
Proof.
  induction n as [|n IH]; intros k acc s es Hb Hs Hk.
  - simpl. unfold ret. rewrite drop_ge by lia. simpl.
    rewrite app_nil_r, list_insert_id by exact Hs.
    rewrite Nat.add_0_r. now destruct s.
  - simpl. unfold bind at 1. unfold getBuildings. rewrite Hb.
    destruct (lookup_lt_is_Some_2 bs k ltac:(lia)) as [b Hkb].
    rewrite Hkb. rewrite (drop_S _ _ _ Hkb).
    unfold bind at 1. rewrite (visitBuilding_run _ _ _ _ es Hs).
    assert (Hlt : (stats < length (statArrays s))%nat)
      by (apply lookup_lt_is_Some; eauto).
    rewrite (IH (S k) _ _ (es ++ statsOf [b])); simpl; try lia; try assumption.
    + rewrite list_insert_insert_eq. unfold statsOf. simpl.
      rewrite Nat.add_assoc.
      destruct (statOf b); simpl; rewrite <- ?app_assoc; reflexivity.
    + now apply list_lookup_insert_eq.
Qed.

Lemma sortBy_run stats key s es :
  statArrays s !! stats = Some es ->
  sortBy stats key s
  = Ok (S (length (statArrays s)),
        Store (buildingArrays s)
              (statArrays s
                 ++ [stableSort (byKeyDesc key) es;
                     firstn 3 (stableSort (byKeyDesc key) es)])).
Proof.
  intros Hs.
  unfold sortBy, spread, sortInPlace, slice0, bind, getStats, setStats,
    newStats, ret. simpl.
  rewrite Hs. simpl.
  rewrite lookup_app_r, Nat.sub_diag by lia. simpl.
  rewrite insert_app_r_alt, Nat.sub_diag by lia. simpl.
  rewrite lookup_app_r, Nat.sub_diag by lia. simpl.
  rewrite lookup_app_r, Nat.sub_diag by lia. simpl.
  rewrite length_app, <- app_assoc. simpl.
  rewrite Nat.add_1_r. reflexivity.
Qed.

Lemma crackStats_run arr s bs :
  buildingArrays s !! arr = Some bs ->
  crackStats arr s
  = Ok (CrackStatsResult (widthCount bs)
          (length (statArrays s) + 2) (length (statArrays s) + 4)
          (length (statArrays s) + 6),
        Store (buildingArrays s)
              (statArrays s
                 ++ [statsOf bs;
                     stableSort (byKeyDesc KCrackCount) (statsOf bs);
                     ranking KCrackCount bs;
                     stableSort (byKeyDesc KMaxWidth) (statsOf bs);
                     ranking KMaxWidth bs;
                     stableSort (byKeyDesc KAvgWidth) (statsOf bs);
                     ranking KAvgWidth bs])).
Proof.
  intros Hb. unfold crackStats.
  set (n := length (statArrays s)).
  erewrite bind_run by reflexivity.
  unfold forEach. erewrite bind_run.
  2:{ erewrite bind_run by (unfold getBuildings; simpl; now rewrite Hb).
      apply (forEachFrom_visit n arr bs (length bs) 0%nat 0%nat _ []);
        simpl; [exact Hb | | reflexivity].
      now rewrite lookup_app_r, Nat.sub_diag by lia. }
  simpl. rewrite insert_app_r_alt, Nat.sub_diag, drop_0 by lia. simpl.
  assert (Hlook : forall rest : list (list stat),
             (statArrays s ++ statsOf bs :: rest) !! n = Some (statsOf bs)).
  { intros rest. now rewrite lookup_app_r, Nat.sub_diag by (unfold n; lia). }
  erewrite bind_run by (apply sortBy_run; simpl; apply Hlook).
  simpl. rewrite <- !app_assoc. simpl.
  erewrite bind_run by (apply sortBy_run; simpl; apply Hlook).
  simpl. rewrite <- !app_assoc. simpl.
  erewrite bind_run by (apply sortBy_run; simpl; apply Hlook).
  simpl. rewrite <- !app_assoc. simpl.
  unfold ret, ranking. rewrite !length_app. simpl. fold n.
  repeat f_equal; lia.
Qed.

(** * Math.max, strings *)

Lemma Math_max_In w ws : In (Math_max w ws) (w :: ws).
Proof.
  unfold Math_max. revert w.
  induction ws as [|x ws IH]; intros w; simpl; [now left|].
  destruct (Qlt_le_dec w x); destruct (IH w), (IH x); simpl in *; tauto.
Qed.

Lemma Math_max_lower w ws : (w <= Math_max w ws)%Q.
Proof.
  unfold Math_max. revert w.
  induction ws as [|x ws IH]; intros w; simpl; [lra|].
  destruct (Qlt_le_dec w x); [|apply IH].
  specialize (IH x). lra.
Qed.

Lemma Math_max_upper w ws x : In x (w :: ws) -> (x <= Math_max w ws)%Q.
Proof.
  unfold Math_max. revert w.
  induction ws as [|y ws IH]; intros w [Hx|Hx]; simpl in *;
    try subst; try lra; try tauto.
  - apply (Math_max_lower _ (y :: ws)).
  - destruct (Qlt_le_dec w y) as [Hlt|Hle].
    + apply IH. destruct Hx; [now left | now right].
    + destruct Hx as [->|Hx]; [|apply IH; now right].
      pose proof (Math_max_lower w ws) as H. unfold Math_max in H. lra.
Qed.

Lemma startsWith_spec s t :
  startsWith s t = true <-> exists post, s = t ++ post.
Proof.
  revert s. induction t as [|d t IH]; intros s; simpl.
  - split; [intros _; now exists s | now destruct s].
  - destruct s as [|c s]; simpl.
    + split; [discriminate | intros [post H]; discriminate].
    + rewrite andb_true_iff, N.eqb_eq, IH. split.
      * intros [-> [post ->]]. now exists post.
      * intros [post H]. injection H as -> ->. split; [reflexivity|now exists post].
Qed.

(** [includes] finds exactly the occurrences of t as a substring of s. *)
Lemma includes_spec s t :
  includes s t = true <-> exists pre post, s = pre ++ t ++ post.
Proof.
  induction s as [|c s IH]; cbn [includes].
  - rewrite orb_false_r, startsWith_spec. split.
    + intros [post H]. now exists [], post.
    + intros [pre [post H]]. destruct pre; simpl in H; [now exists post|discriminate].
  - rewrite orb_true_iff, startsWith_spec, IH. split.
    + intros [[post H]|[pre [post H]]].
      * now exists [], post.
      * exists (c :: pre), post. simpl. now rewrite H.
    + intros [[|c' pre] [post H]]; simpl in H.
      * left. now exists post.
      * right. injection H as -> ->. now exists pre, post.
Qed.

Lemma trimStart_spec s :
  exists ws, s = ws ++ trimStart s /\
    forallb isWhiteSpace ws = true /\
    match trimStart s with
    | c :: _ => isWhiteSpace c = false
    | [] => True
    end.
Proof.
  induction s as [|c s (ws & Hs & Hws & Hhd)]; simpl.
  - now exists [].
  - destruct (isWhiteSpace c) eqn:Hc.
    + exists (c :: ws). simpl. rewrite Hc, Hws. repeat split; [|exact Hhd].
      now rewrite <- Hs.
    + exists []. simpl. now rewrite Hc.
Qed.

Lemma trimStart_whitespace s :
  forallb isWhiteSpace s = true -> trimStart s = [].
Proof.
  induction s as [|c s IH]; simpl; [reflexivity|].
  rewrite andb_true_iff. intros [-> Hs]. now apply IH.
Qed.

(** A term made of white space only, the empty one included, trims to
    the empty string. *)
Lemma trim_whitespace s : forallb isWhiteSpace s = true -> trim s = [].
Proof.
  intros Hs. unfold trim, trimEnd. now rewrite (trimStart_whitespace s Hs).
Qed.

(** [trim] removes white space, and only white space, at both ends. *)
Lemma trim_spec s :
  exists l r, s = l ++ trim s ++ r /\
    forallb isWhiteSpace l = true /\ forallb isWhiteSpace r = true.
Proof.
  destruct (trimStart_spec s) as (l & Hs & Hl & _).
  destruct (trimStart_spec (rev (trimStart s))) as (r & Hr & Hwr & _).
  exists l, (rev r). unfold trim, trimEnd. repeat split; [|exact Hl|].
  - rewrite <- rev_app_distr, <- Hr, rev_involutive. exact Hs.
  - rewrite forallb_forall in *. intros x Hx. apply Hwr. now apply in_rev.
Qed.

(** * The filter pipeline, run *)

Lemma buildingSeverity_ok b : buildingSeverity b = Ok (severityOf b).
Proof.
  unfold buildingSeverity, severityOf, maxWidthOf. rewrite widthsOf_ok.
  simpl. now destruct (nonNullWidths b).
Qed.

Lemma matchesSeverity_ok fs b :
  matchesSeverity fs b = Ok (existsb (severity_eqb (severityOf b)) fs).
Proof. unfold matchesSeverity. now rewrite buildingSeverity_ok. Qed.

Lemma existsb_severity s fs : existsb (severity_eqb s) fs = true <-> In s fs.
Proof.
  rewrite existsb_exists. split.
  - intros [x [Hx Heq]]. apply severity_eqb_eq in Heq. now subst.
  - intros H. exists s. split; [exact H | now apply severity_eqb_eq].
Qed.

Section FilterRun.
Variable toLowerCase : jsstring -> jsstring.

Lemma matchesSearch_ok term b :
  matchesSearch toLowerCase term b = Ok (searchHit toLowerCase term b).
Proof.
  unfold matchesSearch, searchHit, fieldHit.
  destruct (nonEmpty term); simpl; [|reflexivity].
  destruct (name b) as [n|]; simpl.
  - destruct (includes (toLowerCase n) term); simpl; [reflexivity|].
    now destruct (address b).
  - now destruct (address b).
Qed.

Lemma textFilter_run arr term s bs :
  buildingArrays s !! arr = Some bs ->
  textFilter toLowerCase arr term s
  = Ok (length (buildingArrays s),
        Store (buildingArrays s
                 ++ [List.filter (searchHit toLowerCase (toLowerCase (trim term))) bs])
              (statArrays s)).
Proof.
  intros Hb. unfold textFilter.
  apply filterBuildings_run; [exact Hb|].
  intros; apply matchesSearch_ok.
Qed.

Lemma severityFilter_run fs arr s bs :
  buildingArrays s !! arr = Some bs ->
  severityFilter fs arr s
  = match fs with
    | [] => Ok (arr, s)
    | _ :: _ =>
        Ok (length (buildingArrays s),
            Store (buildingArrays s
                     ++ [List.filter
                           (fun b => existsb (severity_eqb (severityOf b)) fs)
                           bs])
                  (statArrays s))
    end.
Proof.
  intros Hb. unfold severityFilter. destruct fs as [|f fs]; [reflexivity|].
  cbn [length Nat.ltb Nat.leb].
  apply filterBuildings_run; [exact Hb|].
  intros; apply matchesSeverity_ok.
Qed.

Lemma filterPipeline_run arr term fs s bs :
  buildingArrays s !! arr = Some bs ->
  exists out s',
    filterPipeline toLowerCase arr term fs s = Ok (out, s') /\
    buildingArrays s' !! out = Some (filtered toLowerCase term fs bs) /\
    buildingArrays s `prefix_of` buildingArrays s' /\
    statArrays s' = statArrays s.
Proof.
  intros Hb. unfold filterPipeline.
  erewrite bind_run by (apply textFilter_run; exact Hb).
  set (hits := List.filter _ bs).
  set (s1 := Store _ _).
  assert (H1 : buildingArrays s1 !! length (buildingArrays s) = Some hits).
  { simpl. now rewrite lookup_app_r, Nat.sub_diag by lia. }
  unfold bind. rewrite (severityFilter_run fs _ s1 hits H1).
  unfold filtered. fold hits. destruct fs as [|f fs]; unfold ret.
  - eexists _, _. split; [reflexivity|]. repeat split; [exact H1|].
    now apply prefix_app_r.
  - eexists _, _. split; [reflexivity|]. simpl. repeat split.
    + now rewrite lookup_app_r, Nat.sub_diag by lia.
    + rewrite <- app_assoc. now apply prefix_app_r.
Qed.

End FilterRun.

(** * The building card, run *)

Section CardLemmas.
Import BuildingCard.
Variable Date_time : jsstring -> option Z.
Variable toFixed : Q -> nat -> jsstring.

Lemma cardCracks_source b : map source (cardCracks b) = buildingCracks b.
Proof.
  unfold cardCracks, buildingCracks.
  induction (waypointList b) as [|wp ws IH]; simpl; [reflexivity|].
  rewrite map_app, IH, map_map. simpl. now rewrite map_id.
Qed.

Lemma waypointCracks_ok wp :
  waypointCracks wp
  = Ok (map (fun c => FlatCrack c (label wp)) (crackList wp)).
Proof.
  unfold waypointCracks, crackList.
  destruct (cracks wp) as [cs|]; simpl; [|reflexivity].
  now rewrite Array_map_total.
Qed.

Lemma BuildingCard_eq b :
  BuildingCard Date_time toFixed b = Ok (cardMetrics Date_time toFixed (cardCracks b)).
Proof.
  unfold BuildingCard.
  assert (Hc : (if truthy (waypoints b)
                then invoke (waypoints b) (flatMap waypointCracks)
                else Ok []) = Ok (cardCracks b)).
  { unfold cardCracks, waypointList.
    destruct (waypoints b) as [ws|]; simpl; [|reflexivity].
    apply flatMap_total. intros; apply waypointCracks_ok. }
  rewrite Hc. cbn [rbind]. now destruct (cardCracks b).
Qed.

Lemma BuildingCard_run b :
  exists m,
    BuildingCard Date_time toFixed b = Ok m /\
    allCracks m = cardCracks b /\
    crackCount m = length (cardCracks b) /\
    lastChecked m
    = match cardCracks b with
      | c :: cs => Some (timestamp (source (fold_left (later Date_time) cs c)))
      | [] => None
      end /\
    maxWidth m
    = match map cardWidth (cardCracks b) with
      | w :: ws => Math_max w ws
      | [] => 0%Q
      end /\
    avgWidth m
    = match cardCracks b with
      | _ :: _ =>
          Str (toFixed
                 (div (fold_left (fun s c => add s (cardWidth c))
                                 (cardCracks b) 0%Q)
                      (inject_Z (Z.of_nat (length (cardCracks b))))) 2)
      | [] => Num 0
      end.
Proof.
  exists (cardMetrics Date_time toFixed (cardCracks b)).
  split; [apply BuildingCard_eq|]. repeat split.
Qed.

Lemma later_valid a b ta tb :
  timeOf Date_time a = Some ta -> timeOf Date_time b = Some tb ->
  (later Date_time a b = a \/ later Date_time a b = b) /\
  timeOf Date_time (later Date_time a b) = Some (Z.max ta tb).
Proof.
  unfold timeOf, later, Date_gt. intros Ha Hb. rewrite Ha, Hb.
  destruct (Z.ltb_spec tb ta).
  - split; [now left|]. rewrite Ha. f_equal. lia.
  - split; [now right|]. rewrite Hb. f_equal. lia.
Qed.

(** With valid dates the reduction returns a crack of the latest time. *)
Lemma reduce_later_latest cs : forall c,
  (forall x, In x (c :: cs) -> timeOf Date_time x <> None) ->
  exists tm,
    In (fold_left (later Date_time) cs c) (c :: cs) /\
    timeOf Date_time (fold_left (later Date_time) cs c) = Some tm /\
    forall x, In x (c :: cs) ->
      exists t, timeOf Date_time x = Some t /\ (t <= tm)%Z.
Proof.
  induction cs as [|d cs IH]; intros c Hv.
  - destruct (timeOf Date_time c) as [t|] eqn:Ht; [|now destruct (Hv c (or_introl eq_refl))].
    exists t. simpl. repeat split; [now left | exact Ht |].
    intros x [<-|[]]. exists t. split; [exact Ht | lia].
  - destruct (timeOf Date_time c) as [tc|] eqn:Htc;
      [|now destruct (Hv c (or_introl eq_refl))].
    destruct (timeOf Date_time d) as [td|] eqn:Htd;
      [|now destruct (Hv d (or_intror (or_introl eq_refl)))].
    destruct (later_valid c d tc td Htc Htd) as [Hsel Htl].
    destruct (IH (later Date_time c d)) as (tm & Hin & Htm & Hmax).
    { intros x [<-|Hx]; [congruence|]. apply Hv. right. now right. }
    exists tm. cbn [fold_left]. repeat split; [|exact Htm|].
    + destruct Hin as [Hin|Hin]; [|right; now right].
      rewrite <- Hin. destruct Hsel as [->| ->]; [now left | right; now left].
    + destruct (Hmax _ (or_introl eq_refl)) as (t & Ht & Hle).
      rewrite Htl in Ht. injection Ht as <-.
      intros x [<-|[<-|Hx]].
      * exists tc. split; [exact Htc | lia].
      * exists td. split; [exact Htd | lia].
      * apply Hmax. now right.
Qed.

End CardLemmas.

(** * The claims *)

(** Doubles by their bits: 0.1 is 0x3FB999999999999A, a third is
    0x3FD5555555555555; a number half way between two doubles goes to
    the one of even mantissa; below the least double, half of it goes
    to 0; and 0.1 + 0.2 is 0.30000000000000004. *)
Example double_examples :
  double 0.1 = (3602879701896397 # 36028797018963968)%Q /\
  double (1 # 3) = (6004799503160661 # 18014398509481984)%Q /\
  double (-0.1) = (-3602879701896397 # 36028797018963968)%Q /\
  double 0.5 = (1 # 2)%Q /\ double 3 = 3%Q /\ double 0 = 0%Q /\
  double 9007199254740993 = 9007199254740992%Q /\
  double 9007199254740995 = 9007199254740996%Q /\
  double (pow2 (-1074)) = pow2 (-1074) /\
  double (pow2 (-1075)) = 0%Q /\
  (double (3 * pow2 (-1075)) == 2 * pow2 (-1074))%Q /\
  add (double 0.1) (double 0.2) = double 0.30000000000000004 /\
  (double 0.3 < add (double 0.1) (double 0.2))%Q /\
  div (double 1) (double 3) = double 0.3333333333333333.
Proof. repeat split; vm_compute; reflexivity. Qed.

(** The doubles the literals 0.3 and 0.2 of getCrackSeverity denote:
    0x3FD3333333333333 and 0x3FC999999999999A, the first below 3/10 and
    the second above 2/10. *)
Lemma double_0_3 : double 0.3 = (5404319552844595 # 18014398509481984)%Q.
Proof. vm_compute. reflexivity. Qed.

Lemma double_0_2 : double 0.2 = (3602879701896397 # 18014398509481984)%Q.
Proof. vm_compute. reflexivity. Qed.

(** The tests of the classifier as inequalities between fractions. *)
Ltac thresholds :=
  repeat match goal with
  | H : Qle_bool _ _ = true |- _ => apply Qle_bool_iff in H
  | H : Qle_bool _ _ = false |- _ =>
      apply not_true_iff_false in H; rewrite Qle_bool_iff in H
  end;
  rewrite ?double_0_3, ?double_0_2 in *.

(** The classifier does not depend on how a width is written as a
    fraction. *)
Lemma getCrackSeverity_Qeq w w' :
  (w == w')%Q -> getCrackSeverity (Some w) = getCrackSeverity (Some w').
Proof.
  intros H. unfold getCrackSeverity.
  destruct (Qle_bool (double 0.3) w) eqn:H3,
           (Qle_bool (double 0.3) w') eqn:H3';
  destruct (Qle_bool (double 0.2) w) eqn:H2,
           (Qle_bool (double 0.2) w') eqn:H2';
  try reflexivity; exfalso; thresholds; lra.
Qed.

(** At the thresholds: a width given as 0.3 is "severe" and a width
    given as 0.2 is "caution", although the double 0.3 is below 3/10;
    the doubles next below them are "caution" and "observe". *)
Lemma getCrackSeverity_boundary :
  getCrackSeverity (Some (double 0.3)) = Severe /\
  getCrackSeverity (Some (double 0.2)) = Caution /\
  (double 0.3 < 0.3)%Q /\ (0.2 < double 0.2)%Q /\
  getCrackSeverity (Some (double 0.29999999999999993)) = Caution /\
  getCrackSeverity (Some (double 0.19999999999999998)) = Observe.
Proof. vm_compute. repeat split; reflexivity. Qed.

(** C1: the severity classifier is a function of the maximum width
    alone: it returns "severe" when w >= 0.3, "caution" when
    0.2 <= w < 0.3, and "observe" when w < 0.2 or when the width is
    null or absent, 0.3 and 0.2 being the numbers the program writes so,
    the doubles nearest to them, 0x3FD3333333333333 and
    0x3FC999999999999A; the comparisons are exact on the raw value of
    the width. *)
Theorem getCrackSeverity_thresholds (w : Q) :
  ((double 0.3 <= w)%Q -> getCrackSeverity (Some w) = Severe) /\
  ((double 0.2 <= w)%Q /\ (w < double 0.3)%Q ->
   getCrackSeverity (Some w) = Caution) /\
  ((w < double 0.2)%Q -> getCrackSeverity (Some w) = Observe) /\
  getCrackSeverity None = Observe /\
  double 0.3 = (5404319552844595 # 18014398509481984)%Q /\
  double 0.2 = (3602879701896397 # 18014398509481984)%Q.
Proof.
  assert (Hcases :
    ((double 0.3 <= w)%Q -> getCrackSeverity (Some w) = Severe) /\
    ((double 0.2 <= w)%Q /\ (w < double 0.3)%Q ->
     getCrackSeverity (Some w) = Caution) /\
    ((w < double 0.2)%Q -> getCrackSeverity (Some w) = Observe)).
  { unfold getCrackSeverity.
    destruct (Qle_bool (double 0.3) w) eqn:H3;
    destruct (Qle_bool (double 0.2) w) eqn:H2;
    repeat split; intros; try reflexivity; exfalso; thresholds; lra. }
  destruct Hcases as (H1 & H2 & H3).
  split; [exact H1|]. split; [exact H2|]. split; [exact H3|].
  split; [reflexivity|]. split; [apply double_0_3 | apply double_0_2].
Qed.

(** The entries of the buildings, in the order of the building list, are
    those of the buildings with a crack; each carries id and name. *)
Lemma statsOf_In e bs :
  In e (statsOf bs) ->
  exists b, In b bs /\ st_id e = id b /\ st_name e = name b /\
    crackCount e = length (nonNullWidths b) /\
    (0 < crackCount e)%nat /\ buildingCracks b <> [].
Proof.
  unfold statsOf. rewrite <- list_elem_of_In, list_elem_of_omap.
  intros (b & Hb & He). exists b. rewrite <- list_elem_of_In. split; [exact Hb|].
  unfold statOf in He.
  destruct (nonNullWidths b) as [|w ws] eqn:Hw; [discriminate|].
  injection He as <-. simpl. repeat split; [lia|].
  intros Hnil. unfold nonNullWidths in Hw. now rewrite Hnil in Hw.
Qed.

Lemma ranking_isRanking key bs : isRanking key (statsOf bs) (ranking key bs).
Proof.
  unfold ranking, isRanking. repeat split.
  - rewrite length_firstn. lia.
  - apply descending_firstn, stableSort_descending.
  - intros e He.
    apply (Permutation_in _ (stableSort_perm (getKey key) (statsOf bs))).
    rewrite <- (firstn_skipn 3 (stableSort _ _)). apply in_or_app. now left.
  - intros k.
    rewrite <- (stableSort_stable (getKey key) k (statsOf bs)).
    apply filter_firstn_prefix.
  - intros e He.
    assert (Hin : In e (statsOf bs)).
    { apply (Permutation_in _ (stableSort_perm (getKey key) (statsOf bs))).
      rewrite <- (firstn_skipn 3 (stableSort _ _)). apply in_or_app. now left. }
    now destruct (statsOf_In e bs Hin) as (b & _ & _ & _ & _ & Hpos & _).
Qed.

Lemma Math_max_isMaximum w ws : isMaximum (Math_max w ws) (w :: ws).
Proof.
  split.
  - exists (Math_max w ws). split; [apply Math_max_In | reflexivity].
  - apply Math_max_upper.
Qed.

Lemma fold_left_add ws : forall a, fold_left add ws a = sumFrom a ws.
Proof. induction ws as [|w ws IH]; intros a; simpl; [reflexivity | apply IH]. Qed.

(** The entries are those of the buildings with a crack that has a
    width, one each, in the order of the building list, and each carries
    the count, the maximum and the mean of the widths of its building. *)
Lemma statsOf_metrics bs :
  Forall2 carriesMetrics (statsOf bs)
          (List.filter (fun b => existsb hasWidth (buildingCracks b)) bs).
Proof.
  unfold statsOf. induction bs as [|b bs IH]; [constructor|].
  change (omap statOf (b :: bs))
    with (match statOf b with
          | Some e => e :: omap statOf bs
          | None => omap statOf bs
          end).
  cbn [List.filter]. unfold statOf.
  pose proof (nonNullWidths_eq b) as Heq.
  destruct (nonNullWidths b) as [|w ws] eqn:Hw.
  - replace (existsb hasWidth (buildingCracks b)) with false; [exact IH|].
    symmetry. apply not_true_iff_false. rewrite existsb_exists.
    intros (c & Hc & Hhas). unfold hasWidth in Hhas.
    destruct (widthMm c) as [x|] eqn:Hx; [|discriminate].
    assert (Hin : In x (filterNonNull (map widthMm (buildingCracks b))))
      by (apply In_filterNonNull; now exists c).
    now rewrite <- Heq in Hin.
  - replace (existsb hasWidth (buildingCracks b)) with true.
    + constructor; [|exact IH]. unfold carriesMetrics, entryOf.
      cbn [st_id st_name crackCount maxWidth avgWidth]. rewrite Hw.
      split; [now repeat split|].
      split; [apply Math_max_isMaximum|].
      unfold meanOf. now rewrite fold_left_add.
    + symmetry. apply existsb_exists.
      assert (Hin : In w (filterNonNull (map widthMm (buildingCracks b))))
        by (rewrite <- Heq; now left).
      apply In_filterNonNull in Hin as (c & Hc & Hcw).
      exists c. split; [exact Hc|]. unfold hasWidth. now rewrite Hcw.
Qed.

Lemma statsOf_entries bs :
  Forall2 entryOf (statsOf bs)
          (List.filter (fun b => existsb hasWidth (buildingCracks b)) bs).
Proof.
  induction (statsOf_metrics bs) as [|e b es bs' [He _] _ IH];
    constructor; assumption.
Qed.



(** The rankings of [demoRanked], by the ids of their entries.  By
    count, building 2 with three cracks leads and, of the three
    buildings with one crack, the first two of the building list
    follow.  By average, building 2 with the mean 0.20000000000000004
    of 0.1, 0.2 and 0.3 is ahead of building 1 with the mean 0.2.  The
    building without crack is in none. *)
Example demoRanked_rankings :
  exists res s' byCount byWidth byAvg,
    crackStats 0%nat (Store [demoRanked] []) = Ok (res, s') /\
    totalCracks res = 6%nat /\
    statArrays s' !! sortedByCount res = Some byCount /\
    statArrays s' !! sortedByWidth res = Some byWidth /\
    statArrays s' !! sortedByAvgWidth res = Some byAvg /\
    map st_id (statsOf demoRanked) = [1; 2; 3; 4]%Z /\
    map st_id byCount = [2; 1; 3]%Z /\
    map crackCount byCount = [3; 1; 1]%nat /\
    map st_id byWidth = [3; 4; 2]%Z /\
    map maxWidth byWidth = [double 0.5; double 0.4; double 0.3] /\
    map st_id byAvg = [3; 4; 2]%Z /\
    map avgWidth byAvg
    = [double 0.5; double 0.4; double 0.20000000000000004] /\
    (double 0.2 < double 0.20000000000000004)%Q.
Proof.
  eexists _, _, _, _, _.
  repeat (split; [vm_compute; reflexivity|]).
  vm_compute; reflexivity.
Qed.

(** Two buildings with the widths 0.15 and 0.1, 0.2: the mean of the
    second is the double 0.15000000000000002, so that it comes first in
    the ranking by average width, and second in the ranking by maximum
    width; two buildings of one mean stay in the order of the building
    list. *)
Example ranking_by_average :
  map st_id (ranking KAvgWidth
               [demoWidths 1 [0.15]%Q; demoWidths 2 [0.1; 0.2]%Q])
  = [2; 1]%Z /\
  map st_id (ranking KMaxWidth
               [demoWidths 1 [0.15]%Q; demoWidths 2 [0.1; 0.2]%Q])
  = [2; 1]%Z /\
  map st_id (ranking KAvgWidth
               [demoWidths 1 [0.15]%Q; demoWidths 2 [0.15; 0.15]%Q])
  = [1; 2]%Z /\
  meanOf [double 0.1; double 0.2] = double 0.15000000000000002.
Proof. repeat split; vm_compute; reflexivity. Qed.

Lemma filterNonNull_length (cs : list crack) :
  length (filterNonNull (map widthMm cs)) = length (List.filter hasWidth cs).
Proof.
  induction cs as [|c cs IH]; simpl; [reflexivity|].
  unfold hasWidth at 1. destruct (widthMm c); simpl; now rewrite IH.
Qed.

Lemma widthCount_measured bs :
  widthCount bs = list_sum (map measuredCount bs).
Proof.
  induction bs as [|b bs IH]; simpl; [reflexivity|].
  rewrite nonNullWidths_eq. unfold measuredCount at 1.
  now rewrite filterNonNull_length, IH.
Qed.

Lemma filter_all {A} (p : A -> bool) l :
  (forall x, In x l -> p x = true) -> List.filter p l = l.
Proof.
  induction l as [|x l IH]; intros H; simpl; [reflexivity|].
  rewrite (H x) by now left. f_equal. apply IH. intros y Hy. apply H. now right.
Qed.

Lemma recordCount_sum bs :
  recordCount bs = list_sum (map (fun b => length (buildingCracks b)) bs).
Proof.
  unfold recordCount.
  induction bs as [|b bs IH]; simpl; [reflexivity|].
  now rewrite length_app, IH.
Qed.

(** C3, as stated, fails on a crack record without a width: crackStats
    counts 0 cracks for a building list that holds one crack record. *)
Lemma totalCracks_skips_null_width :
  exists res s',
    crackStats 0%nat (Store [[unmeasured]] []) = Ok (res, s') /\
    totalCracks res = 0%nat /\
    recordCount [unmeasured] = 1%nat /\
    totalCracks res <> recordCount [unmeasured].
Proof. eexists _, _. repeat split. discriminate. Qed.

(** C3, amended: the total crack count of crackStats is the number of
    crack records that carry a width, summed over all buildings and all
    waypoints, hence the number of all crack records when no width is
    null; a building with zero cracks contributes 0. *)
Theorem crackStats_totalCracks (arr : loc) (s : store) (bs : list building) :
  buildingArrays s !! arr = Some bs ->
  exists res s',
    crackStats arr s = Ok (res, s') /\
    totalCracks res = list_sum (map measuredCount bs) /\
    totalCracks res
    = length (List.filter hasWidth (flat_map buildingCracks bs)) /\
    ((forall c, In c (flat_map buildingCracks bs) -> widthMm c <> None) ->
     totalCracks res = recordCount bs) /\
    (forall b, buildingCracks b = [] -> measuredCount b = 0%nat).
Proof.
  intros Hb. rewrite (crackStats_run arr s bs Hb).
  eexists _, _. split; [reflexivity|]. cbn [totalCracks].
  assert (Hflat : list_sum (map measuredCount bs)
                  = length (List.filter hasWidth (flat_map buildingCracks bs))).
  { clear. induction bs as [|b bs IH]; simpl; [reflexivity|].
    rewrite List.filter_app, length_app, IH. reflexivity. }
  repeat split.
  - apply widthCount_measured.
  - rewrite widthCount_measured. exact Hflat.
  - intros Hall. rewrite widthCount_measured, Hflat. unfold recordCount.
    rewrite filter_all; [reflexivity|].
    intros c Hc. unfold hasWidth. specialize (Hall c Hc).
    now destruct (widthMm c).
  - intros b Hnil. unfold measuredCount. now rewrite Hnil.
Qed.

Lemma crackStats_totalCracks_witness :
  exists res s',
    crackStats 0%nat (Store [[demoA; demoB]] []) = Ok (res, s') /\
    totalCracks res = list_sum (map measuredCount [demoA; demoB]) /\
    totalCracks res
    = length (List.filter hasWidth (flat_map buildingCracks [demoA; demoB])) /\
    ((forall c, In c (flat_map buildingCracks [demoA; demoB]) ->
        widthMm c <> None) ->
     totalCracks res = recordCount [demoA; demoB]) /\
    (forall b, buildingCracks b = [] -> measuredCount b = 0%nat).
Proof.
  apply (crackStats_totalCracks 0%nat (Store [[demoA; demoB]] [])
           [demoA; demoB]).
  reflexivity.
Defined.

Lemma severityOf_passes fs b :
  existsb (severity_eqb (severityOf b)) fs = true <-> passesSeverity fs b.
Proof.
  rewrite existsb_severity. unfold severityOf, maxWidthOf, passesSeverity.
  pose proof (In_nonNullWidths b) as Hin.
  destruct (nonNullWidths b) as [|w ws] eqn:Hw.
  - change (getCrackSeverity None) with Observe. split.
    + intros H. left. split; [|exact H]. intros x Hx. now apply Hin in Hx.
    + intros [[_ H]|(m & Hm & _)]; [exact H|]. now apply Hin in Hm.
  - split.
    + intros H. right. exists (Math_max w ws).
      split; [apply Hin, Math_max_In|]. split; [|exact H].
      intros x Hx. apply Math_max_upper. now apply Hin.
    + intros [[H _]|(m & Hm & Hub & H)].
      * exfalso. apply (H w), Hin. now left.
      * rewrite (getCrackSeverity_Qeq _ m); [exact H|].
        apply Qle_antisym;
          [apply Hub, Hin, Math_max_In | apply Math_max_upper, Hin, Hm].
Qed.

(** C4: with a non-empty active-filter set the severity filter keeps
    exactly the buildings whose maximum crack width, over all non-null
    widths of all waypoints, classifies to a label of the set, a
    building without a numeric width classifying as "observe"; with the
    empty set every building passes. *)
Theorem severityFilter_keeps (fs : list severity) (arr : loc) (s : store)
    (bs : list building) :
  buildingArrays s !! arr = Some bs ->
  exists out s' kept,
    severityFilter fs arr s = Ok (out, s') /\
    buildingArrays s' !! out = Some kept /\
    (fs = [] -> kept = bs) /\
    (fs <> [] ->
     exists keep,
       kept = List.filter keep bs /\
       forall b, keep b = true <-> passesSeverity fs b).
Proof.
  intros Hb. rewrite (severityFilter_run fs arr s bs Hb).
  destruct fs as [|f fs].
  - exists arr, s, bs. repeat split; [exact Hb | congruence].
  - eexists _, _, _. split; [reflexivity|]. cbn [buildingArrays]. split.
    + now rewrite lookup_app_r, Nat.sub_diag by lia.
    + split; [discriminate|]. intros _.
      exists (fun b => existsb (severity_eqb (severityOf b)) (f :: fs)).
      split; [reflexivity|]. intros b. apply severityOf_passes.
Qed.

Lemma severityFilter_keeps_witness :
  exists out s' kept,
    severityFilter [Severe] 0%nat (Store [[demoA; demoB]] []) = Ok (out, s') /\
    buildingArrays s' !! out = Some kept /\
    ([Severe] = [] -> kept = [demoA; demoB]) /\
    ([Severe] <> [] ->
     exists keep,
       kept = List.filter keep [demoA; demoB] /\
       forall b, keep b = true <-> passesSeverity [Severe] b).
Proof.
  apply (severityFilter_keeps [Severe] 0%nat (Store [[demoA; demoB]] [])
           [demoA; demoB]).
  reflexivity.
Defined.

(** The example of the specification: A has widths 0.1 and 0.35, B has
    no crack.  The total is 2, A alone is in the ranking by count, A is
    "severe" and B is "observe". *)
Example crackStats_example :
  exists res s' e,
    crackStats 0%nat (Store [[demoA; demoB]] []) = Ok (res, s') /\
    totalCracks res = 2%nat /\
    statArrays s' !! sortedByCount res = Some [e] /\
    st_id e = id demoA /\ crackCount e = 2%nat /\
    maxWidth e = double 0.35 /\
    buildingSeverity demoA = Ok Severe /\
    buildingSeverity demoB = Ok Observe.
Proof.
  eexists _, _, _. split; [vm_compute; reflexivity|].
  repeat split; vm_compute; reflexivity.
Qed.

(** The filters of that example: "severe" keeps A, "observe" keeps B. *)
Example severityFilter_example :
  (exists s', severityFilter [Severe] 0%nat (Store [[demoA; demoB]] [])
              = Ok (1%nat, s') /\ buildingArrays s' !! 1%nat = Some [demoA]) /\
  (exists s', severityFilter [Observe] 0%nat (Store [[demoA; demoB]] [])
              = Ok (1%nat, s') /\ buildingArrays s' !! 1%nat = Some [demoB]).
Proof. split; eexists; split; reflexivity. Qed.

Section TextFilter.
Variable toLowerCase : jsstring -> jsstring.

Lemma fieldHit_spec t field :
  fieldHit toLowerCase (toLowerCase t) field = true
  <-> exists f, field = Some f /\ containsIgnoringCase toLowerCase f t.
Proof.
  unfold fieldHit, containsIgnoringCase. destruct field as [f|].
  - rewrite includes_spec. split.
    + intros H. now exists f.
    + intros (f' & Hf & H). now injection Hf as ->.
  - split; [discriminate | intros (f & Hf & _); discriminate].
Qed.

Lemma searchHit_spec t b :
  searchHit toLowerCase (toLowerCase t) b = true
  <-> toLowerCase t = [] \/ mentions toLowerCase t b.
Proof.
  unfold searchHit, mentions.
  rewrite !orb_true_iff, !fieldHit_spec, negb_true_iff. split.
  - intros [[H|(f & Hf & H)]|(f & Hf & H)].
    + left. now destruct (toLowerCase t).
    + right. exists f. split; [now left | exact H].
    + right. exists f. split; [now right | exact H].
  - intros [H|(f & [Hf|Hf] & H)].
    + left. left. now rewrite H.
    + left. right. now exists f.
    + right. now exists f.
Qed.

(** C5, amended: the text filter keeps exactly the buildings whose name
    or address contains the search term, stripped of the white space
    around it, as a case-insensitive substring; a term that is empty or
    made of white space only keeps every building. *)
Theorem textFilter_keeps (arr : loc) (term : jsstring) (s : store)
    (bs : list building) :
  buildingArrays s !! arr = Some bs ->
  exists out s' kept keep,
    textFilter toLowerCase arr term s = Ok (out, s') /\
    buildingArrays s' !! out = Some kept /\
    kept = List.filter keep bs /\
    (forall b, keep b = true
               <-> toLowerCase (trim term) = [] \/ mentions toLowerCase (trim term) b) /\
    (toLowerCase [] = [] -> forallb isWhiteSpace term = true -> kept = bs).
Proof.
  intros Hb. rewrite (textFilter_run toLowerCase arr term s bs Hb).
  eexists _, _, _, (searchHit toLowerCase (toLowerCase (trim term))).
  split; [reflexivity|]. cbn [buildingArrays]. repeat split.
  - now rewrite lookup_app_r, Nat.sub_diag by lia.
  - apply searchHit_spec.
  - apply searchHit_spec.
  - intros Hnil Hws. rewrite (trim_whitespace term Hws), Hnil.
    now apply filter_all.
Qed.

(** C6: with an empty search term and an empty active-filter set the
    filter pipeline returns the building list as it is, every building
    in its place; so does the filter effect once the page has loaded. *)
Theorem filterPipeline_identity (arr : loc) (s : store) (bs : list building) :
  toLowerCase [] = [] ->
  buildingArrays s !! arr = Some bs ->
  (exists out s',
     filterPipeline toLowerCase arr [] [] s = Ok (out, s') /\
     buildingArrays s' !! out = Some bs) /\
  (forall st,
     buildings st = arr -> loading st = false ->
     truthyString (error st) = false ->
     searchTerm st = [] -> activeFilters st = [] ->
     exists st' s',
       filterEffect toLowerCase st s = Ok (st', s') /\
       buildingArrays s' !! filteredBuildings st' = Some bs).
Proof.
  intros Hnil Hb.
  destruct (filterPipeline_run toLowerCase arr [] [] s bs Hb)
    as (out & s' & Hrun & Hout & _ & _).
  assert (Hid : filtered toLowerCase [] [] bs = bs).
  { unfold filtered. change (trim []) with (@nil code_unit).
    rewrite Hnil. now apply filter_all. }
  rewrite Hid in Hout. split.
  - now exists out, s'.
  - intros st <- Hl He Ht Hf. unfold filterEffect.
    rewrite Hl, He, Ht, Hf. cbn [orb].
    erewrite bind_run by exact Hrun. unfold ret.
    eexists _, _. split; [reflexivity|]. exact Hout.
Qed.

End TextFilter.

(** C5, as stated, fails on a term with white space around it: the
    building named "A" is kept for the term "a ", which its name does
    not contain. *)
Lemma textFilter_trims_term :
  (exists s',
     textFilter asciiLowerCase 0%nat (str "a ") (Store [[demoA]] [])
     = Ok (1%nat, s') /\
     buildingArrays s' !! 1%nat = Some [demoA]) /\
  ~ mentions asciiLowerCase (str "a ") demoA.
Proof.
  split.
  - eexists. split; reflexivity.
  - intros (field & [Hf|Hf] & pre & post & H); [|discriminate].
    injection Hf as <-. apply (f_equal (@length _)) in H.
    rewrite !length_app in H. simpl in H. lia.
Qed.

Lemma textFilter_keeps_witness :
  exists out s' kept keep,
    textFilter asciiLowerCase 0%nat (str "a ") (Store [[demoA; demoB]] [])
    = Ok (out, s') /\
    buildingArrays s' !! out = Some kept /\
    kept = List.filter keep [demoA; demoB] /\
    (forall b, keep b = true
               <-> asciiLowerCase (trim (str "a ")) = []
                   \/ mentions asciiLowerCase (trim (str "a ")) b) /\
    (asciiLowerCase [] = [] ->
     forallb isWhiteSpace (str "a ") = true -> kept = [demoA; demoB]).
Proof.
  apply (textFilter_keeps asciiLowerCase 0%nat (str "a ")
           (Store [[demoA; demoB]] []) [demoA; demoB]).
  reflexivity.
Defined.

Lemma filterPipeline_identity_witness :
  (exists out s',
     filterPipeline asciiLowerCase 0%nat [] [] (Store [[demoA; demoB]] [])
     = Ok (out, s') /\
     buildingArrays s' !! out = Some [demoA; demoB]) /\
  (forall st,
     buildings st = 0%nat -> loading st = false ->
     truthyString (error st) = false ->
     searchTerm st = [] -> activeFilters st = [] ->
     exists st' s',
       filterEffect asciiLowerCase st (Store [[demoA; demoB]] [])
       = Ok (st', s') /\
       buildingArrays s' !! filteredBuildings st' = Some [demoA; demoB]).
Proof.
  apply (filterPipeline_identity asciiLowerCase 0%nat
           (Store [[demoA; demoB]] []) [demoA; demoB]); reflexivity.
Defined.

(** * The two views of the widths *)







Lemma filter_length_lt {A} (p : A -> bool) l x :
  In x l -> p x = false -> (length (List.filter p l) < length l)%nat.
Proof.
  induction l as [|y l IH]; intros Hin Hp; [destruct Hin|].
  simpl. destruct Hin as [->|Hx].
  - rewrite Hp. pose proof (List.filter_length_le p l). lia.
  - specialize (IH Hx Hp). destruct (p y); simpl; lia.
Qed.


(** C7, as stated, fails when a timestamp is not a date: of the cracks
    of 2024-06-15, of "yesterday" and of 2024-05-01, in this order, the
    card shows 2024-05-01 as last checked, although the crack of
    2024-06-15 is later.  A comparison with an invalid date is false, so
    that the reduction drops what it held when it meets one. *)
Lemma lastChecked_not_latest :
  exists m c t tc,
    BuildingCard.BuildingCard isoDateTime decimalToFixed demoTyped = Ok m /\
    map (fun x => timestamp (BuildingCard.source x)) (BuildingCard.allCracks m)
    = [str "2024-06-15"; str "yesterday"; str "2024-05-01"] /\
    BuildingCard.lastChecked m = Some (str "2024-05-01") /\
    isoDateTime (str "2024-05-01") = Some t /\
    In c (BuildingCard.allCracks m) /\
    timestamp (BuildingCard.source c) = str "2024-06-15" /\
    timeOf isoDateTime c = Some tc /\
    (t < tc)%Z.
Proof.
  eexists _, (BuildingCard.FlatCrack _ _), _, _.
  split; [vm_compute; reflexivity|].
  split; [reflexivity|]. split; [reflexivity|].
  split; [vm_compute; reflexivity|].
  split; [left; reflexivity|].
  split; [reflexivity|].
  split; [vm_compute; reflexivity|].
  reflexivity.
Qed.

Section CardClaims.
Variable Date_time : jsstring -> option Z.
Variable toFixed : Q -> nat -> jsstring.

(** C7, amended: for a building whose flattened crack list is empty the
    card shows crack count 0, maximum width 0, average width 0 and no
    last-checked date, and the building classifies as "observe"; when
    there are cracks and the timestamp of every crack is a valid date,
    last-checked is the timestamp of a crack whose time is the maximum
    over all the cracks of the building. *)
Theorem BuildingCard_metrics (b : building) :
  exists m,
    BuildingCard.BuildingCard Date_time toFixed b = Ok m /\
    map BuildingCard.source (BuildingCard.allCracks m) = buildingCracks b /\
    (BuildingCard.allCracks m = [] ->
     BuildingCard.crackCount m = 0%nat /\
     BuildingCard.maxWidth m = 0%Q /\
     BuildingCard.avgWidth m = BuildingCard.Num 0 /\
     BuildingCard.lastChecked m = None /\
     buildingSeverity b = Ok Observe) /\
    (BuildingCard.allCracks m <> [] ->
     (forall c, In c (BuildingCard.allCracks m) ->
                timeOf Date_time c <> None) ->
     exists c tm,
       In c (BuildingCard.allCracks m) /\
       BuildingCard.lastChecked m
       = Some (timestamp (BuildingCard.source c)) /\
       timeOf Date_time c = Some tm /\
       forall x, In x (BuildingCard.allCracks m) ->
         exists t, timeOf Date_time x = Some t /\ (t <= tm)%Z).
Proof.
  destruct (BuildingCard_run Date_time toFixed b)
    as (m & Hrun & Hall & Hcount & Hlast & Hmax & Havg).
  exists m. split; [exact Hrun|]. rewrite Hall.
  split; [apply cardCracks_source|]. split.
  - intros Hnil. rewrite Hcount, Hmax, Havg, Hlast, Hnil.
    repeat split.
    rewrite buildingSeverity_ok. unfold severityOf, maxWidthOf, nonNullWidths.
    now rewrite <- cardCracks_source, Hnil.
  - intros Hne Hvalid. rewrite Hlast.
    destruct (cardCracks b) as [|c cs]; [congruence|].
    destruct (reduce_later_latest Date_time cs c Hvalid)
      as (tm & Hin & Htm & Hle).
    now exists (fold_left (BuildingCard.later Date_time) cs c), tm.
Qed.


End CardClaims.

Example decimalToFixed_examples :
  decimalToFixed 0.25 2 = str "0.25" /\
  decimalToFixed 0.5 2 = str "0.50" /\
  decimalToFixed 12 2 = str "12.00" /\
  decimalToFixed (-0.125) 1 = str "-0.1".
Proof. repeat split. Qed.

Example isoDateTime_examples :
  isoDateTime (str "1970-01-01") = Some 0%Z /\
  isoDateTime (str "2024-05-01") = Some 1714521600000%Z /\
  isoDateTime (str "yesterday") = None.
Proof. repeat split. Qed.

(** On [demoMixed], whose timestamps are dates, last-checked is the
    timestamp of a crack of the latest time. *)
Lemma BuildingCard_metrics_witness :
  exists m c tm,
    BuildingCard.BuildingCard isoDateTime decimalToFixed demoMixed = Ok m /\
    In c (BuildingCard.allCracks m) /\
    BuildingCard.lastChecked m = Some (timestamp (BuildingCard.source c)) /\
    timeOf isoDateTime c = Some tm /\
    forall x, In x (BuildingCard.allCracks m) ->
      exists t, timeOf isoDateTime x = Some t /\ (t <= tm)%Z.
Proof.
  destruct (BuildingCard_metrics isoDateTime decimalToFixed demoMixed)
    as (m & Hrun & _ & _ & Hlast).
  vm_compute in Hrun. injection Hrun as <-.
  destruct Hlast as (c & tm & H).
  - discriminate.
  - intros c [<-|[<-|[]]]; vm_compute; discriminate.
  - eexists _, c, tm. split; [vm_compute; reflexivity | exact H].
Defined.


(** The two views on [demoMixed]: the card counts 2 cracks with average
    "0.25", the ranking entry counts 1 crack with average 0.5; both have
    the maximum 0.5 and the last check is the one of 2024-06-15. *)
Example demoMixed_views :
  (exists m,
     BuildingCard.BuildingCard isoDateTime decimalToFixed demoMixed = Ok m /\
     BuildingCard.crackCount m = 2%nat /\
     BuildingCard.maxWidth m = (1 # 2)%Q /\
     BuildingCard.avgWidth m = BuildingCard.Str (str "0.25") /\
     BuildingCard.lastChecked m = Some (str "2024-06-15")) /\
  (exists res s' e,
     crackStats 0%nat (Store [[demoMixed]] []) = Ok (res, s') /\
     statArrays s' !! sortedByCount res = Some [e] /\
     crackCount e = 1%nat /\ maxWidth e = (1 # 2)%Q /\
     avgWidth e = (1 # 2)%Q).
Proof.
  split.
  - eexists. split; [vm_compute; reflexivity|]. repeat split.
  - eexists _, _, _. split; [vm_compute; reflexivity|]. repeat split.
Qed.

(** The card of [demoA], with widths 0.1 and 0.35: the sum of the two
    doubles is 0.44999999999999996 and its half prints as "0.22", where
    the mean of the decimals, 0.225, would print as "0.23". *)
Example demoA_card :
  (exists m,
     BuildingCard.BuildingCard isoDateTime decimalToFixed demoA = Ok m /\
     BuildingCard.crackCount m = 2%nat /\
     BuildingCard.maxWidth m = double 0.35 /\
     BuildingCard.avgWidth m = BuildingCard.Str (str "0.22")) /\
  add (add 0 (double 0.1)) (double 0.35) = double 0.44999999999999996 /\
  decimalToFixed 0.225 2 = str "0.23".
Proof.
  split; [eexists; split; [vm_compute; reflexivity|]|];
    repeat split; vm_compute; reflexivity.
Qed.

(** * Absent fields *)

Lemma cardCracks_present b : cardCracks (present b) = cardCracks b.
Proof.
  unfold cardCracks, present. cbn [waypointList waypoints].
  change (match waypoints b with Some ws => ws | None => [] end)
    with (waypointList b).
  induction (waypointList b) as [|wp ws IH]; simpl; [reflexivity|].
  now rewrite IH.
Qed.

Lemma buildingCracks_present b : buildingCracks (present b) = buildingCracks b.
Proof. now rewrite <- !cardCracks_source, cardCracks_present. Qed.

Lemma filterNonNull_measured cs :
  filterNonNull (map widthMm (List.filter hasWidth cs))
  = filterNonNull (map widthMm cs).
Proof.
  induction cs as [|c cs IH]; simpl; [reflexivity|].
  unfold hasWidth at 1. destruct (widthMm c) eqn:Hc; simpl; [|exact IH].
  now rewrite Hc, IH.
Qed.

Lemma buildingCracks_measured b :
  buildingCracks (measured b) = List.filter hasWidth (buildingCracks b).
Proof.
  unfold buildingCracks, measured. cbn [waypointList waypoints].
  change (match waypoints b with Some ws => ws | None => [] end)
    with (waypointList b).
  induction (waypointList b) as [|wp ws IH]; simpl; [reflexivity|].
  now rewrite List.filter_app, IH.
Qed.

Lemma nonNullWidths_measured b : nonNullWidths (measured b) = nonNullWidths b.
Proof.
  rewrite !nonNullWidths_eq.
  now rewrite buildingCracks_measured, filterNonNull_measured.
Qed.

Lemma nonNullWidths_present b : nonNullWidths (present b) = nonNullWidths b.
Proof. unfold nonNullWidths. now rewrite buildingCracks_present. Qed.

(** A change of the buildings that keeps id, name and the widths keeps
    the entries and the total. *)
Lemma statsOf_map (f : building -> building) bs :
  (forall b, id (f b) = id b /\ name (f b) = name b /\
             nonNullWidths (f b) = nonNullWidths b) ->
  statsOf (map f bs) = statsOf bs /\ widthCount (map f bs) = widthCount bs.
Proof.
  intros Hf.
  assert (Hstat : forall b, statOf (f b) = statOf b).
  { intros b. destruct (Hf b) as (Hid & Hname & Hw).
    unfold statOf. now rewrite Hid, Hname, Hw. }
  unfold statsOf.
  induction bs as [|b bs [IH1 IH2]]; [now split|].
  cbn [map widthCount]. destruct (Hf b) as (_ & _ & Hw).
  rewrite Hw, IH2. split; [|reflexivity].
  change (omap statOf (f b :: map f bs))
    with (match statOf (f b) with
          | Some e => e :: omap statOf (map f bs)
          | None => omap statOf (map f bs)
          end).
  now rewrite Hstat, IH1.
Qed.

(** The severity filter returns an array of the store. *)
Lemma severityFilter_returns fs arr s bs :
  buildingArrays s !! arr = Some bs ->
  exists out s' kept,
    severityFilter fs arr s = Ok (out, s') /\
    buildingArrays s' !! out = Some kept.
Proof.
  intros Hb. rewrite (severityFilter_run fs arr s bs Hb).
  destruct fs as [|f fs].
  - now exists arr, s, bs.
  - eexists _, _, _. split; [reflexivity|]. simpl.
    now rewrite lookup_app_r, Nat.sub_diag by lia.
Qed.

Section AbsentFields.
Variable Date_time : jsstring -> option Z.
Variable toFixed : Q -> nat -> jsstring.

(** C9: on building records with an absent waypoints field, an absent
    cracks field on a waypoint or a crack without width, the metrics of
    the card, the severity filter and crackStats throw no error and
    give the results they give when each absent array is an empty one;
    the severity filter and crackStats give the results they give
    without the cracks that have no width. *)
Theorem absent_fields_tolerated (fs : list severity) (arr : loc) (s : store)
    (bs : list building) :
  buildingArrays s !! arr = Some bs ->
  (forall b,
     (exists m,
        BuildingCard.BuildingCard Date_time toFixed b = Ok m /\
        BuildingCard.BuildingCard Date_time toFixed (present b) = Ok m) /\
     (exists keep,
        matchesSeverity fs b = Ok keep /\
        matchesSeverity fs (present b) = Ok keep /\
        matchesSeverity fs (measured b) = Ok keep)) /\
  (exists out s' kept,
     severityFilter fs arr s = Ok (out, s') /\
     buildingArrays s' !! out = Some kept) /\
  (exists res s',
     crackStats arr s = Ok (res, s') /\
     forall f, f = present \/ f = measured ->
       crackStats arr
         (Store (<[arr := map f bs]> (buildingArrays s)) (statArrays s))
       = Ok (res, Store (<[arr := map f bs]> (buildingArrays s))
                        (statArrays s'))).
Proof.
  intros Hb. split; [|split].
  - intros b. split.
    + exists (cardMetrics Date_time toFixed (cardCracks b)).
      rewrite !BuildingCard_eq. now rewrite cardCracks_present.
    + exists (existsb (severity_eqb (severityOf b)) fs).
      rewrite !matchesSeverity_ok. unfold severityOf, maxWidthOf.
      now rewrite nonNullWidths_present, nonNullWidths_measured.
  - exact (severityFilter_returns fs arr s bs Hb).
  - rewrite (crackStats_run arr s bs Hb).
    eexists _, _. split; [reflexivity|]. intros f Hf.
    assert (Hlt : (arr < length (buildingArrays s))%nat)
      by (apply lookup_lt_is_Some; eauto).
    rewrite (crackStats_run arr _ (map f bs))
      by (simpl; now apply list_lookup_insert_eq).
    unfold ranking.
    destruct (statsOf_map f bs) as [-> ->]; [|reflexivity].
    intros b. destruct Hf as [-> | ->]; simpl;
      [rewrite nonNullWidths_present | rewrite nonNullWidths_measured];
      now repeat split.
Qed.

End AbsentFields.

Lemma absent_fields_tolerated_witness :
  (forall b,
     (exists m,
        BuildingCard.BuildingCard isoDateTime decimalToFixed b = Ok m /\
        BuildingCard.BuildingCard isoDateTime decimalToFixed (present b)
        = Ok m) /\
     (exists keep,
        matchesSeverity [Observe] b = Ok keep /\
        matchesSeverity [Observe] (present b) = Ok keep /\
        matchesSeverity [Observe] (measured b) = Ok keep)) /\
  (exists out s' kept,
     severityFilter [Observe] 0%nat (Store [[demoMixed; demoB]] [])
     = Ok (out, s') /\
     buildingArrays s' !! out = Some kept) /\
  (exists res s',
     crackStats 0%nat (Store [[demoMixed; demoB]] []) = Ok (res, s') /\
     forall f, f = present \/ f = measured ->
       crackStats 0%nat
         (Store (<[0%nat := map f [demoMixed; demoB]]>
                   (buildingArrays (Store [[demoMixed; demoB]] [])))
                (statArrays (Store [[demoMixed; demoB]] [])))
       = Ok (res, Store (<[0%nat := map f [demoMixed; demoB]]>
                           (buildingArrays (Store [[demoMixed; demoB]] [])))
                        (statArrays s'))).
Proof.
  apply (absent_fields_tolerated isoDateTime decimalToFixed [Observe] 0%nat
           (Store [[demoMixed; demoB]] []) [demoMixed; demoB]).
  reflexivity.
Defined.

(** * No mutation of the arrays in the store *)

Lemma preserved_lookup s s' l bs :
  preserved s s' ->
  buildingArrays s !! l = Some bs -> buildingArrays s' !! l = Some bs.
Proof. intros [H _] Hl. eapply prefix_lookup_Some; eauto. Qed.

Section Frame.
Variable toLowerCase : jsstring -> jsstring.

Lemma filterEffect_run st s bs :
  buildingArrays s !! buildings st = Some bs ->
  exists st' s',
    filterEffect toLowerCase st s = Ok (st', s') /\
    buildings st' = buildings st /\
    preserved s s' /\
    (loading st = false -> truthyString (error st) = false ->
     buildingArrays s' !! filteredBuildings st'
     = Some (filtered toLowerCase (searchTerm st) (activeFilters st) bs)).
Proof.
  intros Hb. unfold filterEffect.
  destruct (loading st || truthyString (error st)) eqn:Hguard.
  - exists st, s. unfold ret. repeat split; try reflexivity.
    intros Hl He. rewrite Hl, He in Hguard. discriminate.
  - destruct (filterPipeline_run toLowerCase (buildings st) (searchTerm st)
                (activeFilters st) s bs Hb)
      as (out & s' & Hrun & Hout & Hpre & Hstat).
    erewrite bind_run by exact Hrun. unfold ret.
    eexists _, _. split; [reflexivity|]. cbn [buildings filteredBuildings].
    repeat split; [exact Hpre | now rewrite Hstat | intros _ _; exact Hout].
Qed.

(** C10: computing the crack statistics, with their three sorted
    rankings, and then running the filter effect leaves every array of
    the store as it was, the building list among them: it holds the same
    buildings in the same order; the sorts act on copies, the array of
    entries staying in the order of the building list. *)
Theorem buildings_not_mutated (st : pageState) (s : store)
    (bs : list building) :
  buildingArrays s !! buildings st = Some bs ->
  exists res s1 st' s2,
    crackStats (buildings st) s = Ok (res, s1) /\
    filterEffect toLowerCase st s1 = Ok (st', s2) /\
    buildings st' = buildings st /\
    preserved s s1 /\ preserved s1 s2 /\
    buildingArrays s1 !! buildings st = Some bs /\
    buildingArrays s2 !! buildings st = Some bs /\
    statArrays s2 !! length (statArrays s) = Some (statsOf bs).
Proof.
  intros Hb. rewrite (crackStats_run _ s bs Hb).
  set (s1 := Store _ _).
  assert (Hb1 : buildingArrays s1 !! buildings st = Some bs) by exact Hb.
  destruct (filterEffect_run st s1 bs Hb1) as (st' & s2 & Hrun & Hst & Hpre & _).
  exists (CrackStatsResult (widthCount bs) (length (statArrays s) + 2)
            (length (statArrays s) + 4) (length (statArrays s) + 6)).
  exists s1, st', s2. split; [reflexivity|]. split; [exact Hrun|].
  split; [exact Hst|].
  assert (Hpre1 : preserved s s1).
  { split; [reflexivity|]. simpl. now apply prefix_app_r. }
  repeat split; try apply Hpre1; try apply Hpre; try exact Hb1.
  - eapply preserved_lookup; eauto.
  - destruct Hpre as [_ Hstat]. eapply prefix_lookup_Some; [|exact Hstat].
    simpl. now rewrite lookup_app_r, Nat.sub_diag by lia.
Qed.

End Frame.

Lemma buildings_not_mutated_witness :
  exists res s1 st' s2,
    crackStats 0%nat (Store [[demoA; demoMixed; demoB]; []] [])
    = Ok (res, s1) /\
    filterEffect asciiLowerCase
      (PageState 0 1 false None (str " seoul") [Severe]) s1 = Ok (st', s2) /\
    buildings st' = 0%nat /\
    preserved (Store [[demoA; demoMixed; demoB]; []] []) s1 /\
    preserved s1 s2 /\
    buildingArrays s1 !! 0%nat = Some [demoA; demoMixed; demoB] /\
    buildingArrays s2 !! 0%nat = Some [demoA; demoMixed; demoB] /\
    statArrays s2 !! 0%nat = Some (statsOf [demoA; demoMixed; demoB]).
Proof.
  apply (buildings_not_mutated asciiLowerCase
           (PageState 0 1 false None (str " seoul") [Severe])
           (Store [[demoA; demoMixed; demoB]; []] [])
           [demoA; demoMixed; demoB]).
  reflexivity.
Defined.


(** * Further properties of the page *)

(** ** The severity classifier and the severity of a building *)

Lemma getCrackSeverity_rank w :
  severityRank (getCrackSeverity (Some w))
  = if Qle_bool (double 0.3) w then 2%nat
    else if Qle_bool (double 0.2) w then 1%nat else 0%nat.
Proof.
  unfold getCrackSeverity.
  now destruct (Qle_bool (double 0.3) w), (Qle_bool (double 0.2) w).
Qed.

Lemma getCrackSeverity_mono w1 w2 :
  (w1 <= w2)%Q ->
  (severityRank (getCrackSeverity (Some w1))
   <= severityRank (getCrackSeverity (Some w2)))%nat.
Proof.
  intros Hle. rewrite !getCrackSeverity_rank.
  destruct (Qle_bool (double 0.3) w1) eqn:A1,
           (Qle_bool (double 0.2) w1) eqn:B1,
           (Qle_bool (double 0.3) w2) eqn:A2,
           (Qle_bool (double 0.2) w2) eqn:B2;
    try lia; exfalso; thresholds; lra.
Qed.

(** X1: the classifier is monotone: a wider maximum never classifies
    lower, and a missing width classifies lowest. *)
Theorem getCrackSeverity_monotone (w1 w2 : Q) :
  (w1 <= w2)%Q ->
  (severityRank (getCrackSeverity (Some w1))
   <= severityRank (getCrackSeverity (Some w2)))%nat /\
  (severityRank (getCrackSeverity None)
   <= severityRank (getCrackSeverity (Some w1)))%nat.
Proof.
  intros Hle. split; [now apply getCrackSeverity_mono|].
  change (getCrackSeverity None) with Observe. cbn [severityRank]. lia.
Qed.

Lemma getCrackSeverity_monotone_witness :
  (severityRank (getCrackSeverity (Some 0.25%Q))
   <= severityRank (getCrackSeverity (Some 0.3%Q)))%nat /\
  (severityRank (getCrackSeverity None)
   <= severityRank (getCrackSeverity (Some 0.25%Q)))%nat.
Proof.
  apply (getCrackSeverity_monotone 0.25 0.3). unfold Qle. simpl. lia.
Defined.

(** X2: cracks only raise the severity of a building: when every width
    of b is a width of b', the severity filter classifies b' at least as
    high as b. *)
Theorem buildingSeverity_monotone (b b' : building) :
  (forall w, In w (nonNullWidths b) -> In w (nonNullWidths b')) ->
  exists v v',
    buildingSeverity b = Ok v /\ buildingSeverity b' = Ok v' /\
    (severityRank v <= severityRank v')%nat.
Proof.
  intros Hsub. exists (severityOf b), (severityOf b').
  rewrite !buildingSeverity_ok. repeat split.
  unfold severityOf, maxWidthOf.
  destruct (nonNullWidths b) as [|w ws] eqn:Hb; [simpl; lia|].
  assert (Hin : In (Math_max w ws) (nonNullWidths b'))
    by (apply Hsub, Math_max_In).
  destruct (nonNullWidths b') as [|w' ws'] eqn:Hb'; [destruct Hin|].
  apply getCrackSeverity_mono. now apply Math_max_upper.
Qed.

Lemma buildingSeverity_monotone_witness :
  nonNullWidths demoNameless = [double 0.25] /\
  nonNullWidths demoWide = [double 0.1; double 0.25; double 0.35] /\
  exists v v',
    buildingSeverity demoNameless = Ok v /\
    buildingSeverity demoWide = Ok v' /\
    (severityRank v <= severityRank v')%nat.
Proof.
  split; [reflexivity|]. split; [reflexivity|].
  apply (buildingSeverity_monotone demoNameless demoWide).
  intros w [<-|[]]. right. left. reflexivity.
Defined.

(** The severities of these two buildings: "caution" for the width 0.25
    alone, "severe" with the widths 0.1 and 0.35 added. *)
Example buildingSeverity_example :
  buildingSeverity demoNameless = Ok Caution /\
  buildingSeverity demoWide = Ok Severe.
Proof. split; vm_compute; reflexivity. Qed.

(** ** The filter buttons *)

Lemma severity_eqb_refl f : severity_eqb f f = true.
Proof. now destruct f. Qed.

Lemma severity_eqb_neq f g : severity_eqb f g = false <-> f <> g.
Proof.
  rewrite <- severity_eqb_eq. destruct (severity_eqb f g); split; congruence.
Qed.

Lemma toggleFilter_In f g prev :
  In g (toggleFilter f prev)
  <-> (g = f /\ ~ In f prev) \/ (g <> f /\ In g prev).
Proof.
  unfold toggleFilter.
  destruct (existsb (severity_eqb f) prev) eqn:Hf.
  - apply existsb_severity in Hf.
    rewrite filter_In, negb_true_iff, severity_eqb_neq. tauto.
  - apply not_true_iff_false in Hf. rewrite existsb_severity in Hf.
    rewrite in_app_iff. simpl. split.
    + intros [Hg|[<-|[]]]; [|now left].
      right. split; [|exact Hg]. intros ->. contradiction.
    + intros [[-> _]|[_ Hg]]; [right; now left | now left].
Qed.

(** X3: a click on a filter button switches its label, active to
    inactive and back, and leaves the other labels as they are. *)
Theorem toggleFilter_switches (f : severity) (prev : list severity) :
  (In f (toggleFilter f prev) <-> ~ In f prev) /\
  (forall g, g <> f -> (In g (toggleFilter f prev) <-> In g prev)).
Proof.
  split.
  - rewrite toggleFilter_In. tauto.
  - intros g Hg. rewrite toggleFilter_In. tauto.
Qed.

Lemma NoDup_filter {A} (p : A -> bool) l : NoDup l -> NoDup (List.filter p l).
Proof.
  induction 1 as [|x l Hx Hl IH]; simpl; [constructor|].
  destruct (p x); [|exact IH].
  constructor; [|exact IH]. rewrite list_elem_of_In, filter_In.
  rewrite list_elem_of_In in Hx. tauto.
Qed.

Lemma toggleFilter_NoDup f prev : NoDup prev -> NoDup (toggleFilter f prev).
Proof.
  intros Hnd. unfold toggleFilter.
  destruct (existsb (severity_eqb f) prev) eqn:Hf.
  - now apply NoDup_filter.
  - apply not_true_iff_false in Hf. rewrite existsb_severity in Hf.
    apply NoDup_app. repeat split; [exact Hnd | | apply NoDup_singleton].
    intros x Hx Hx'. apply list_elem_of_In in Hx.
    apply list_elem_of_In in Hx'. destruct Hx' as [<-|[]]. contradiction.
Qed.

Lemma NoDup_severity_length (l : list severity) :
  NoDup l -> (length l <= 3)%nat.
Proof.
  intros Hnd.
  change 3%nat with (length [Severe; Caution; Observe]).
  apply submseteq_length, NoDup_submseteq; [exact Hnd|].
  intros x _. destruct x; repeat constructor.
Qed.

(** X4: whatever buttons are clicked, in whatever order, no label is
    active twice: the active filters hold at most three labels. *)
Theorem activeFilters_distinct (clicks : list severity) :
  NoDup (afterClicks clicks) /\ (length (afterClicks clicks) <= 3)%nat.
Proof.
  assert (H : NoDup (afterClicks clicks)).
  { unfold afterClicks.
    assert (Hgen : forall start, NoDup start ->
              NoDup (fold_left (fun active f => toggleFilter f active)
                               clicks start)).
    { induction clicks as [|f fs IH]; intros start Hs; simpl; [exact Hs|].
      apply IH. now apply toggleFilter_NoDup. }
    apply Hgen. constructor. }
  split; [exact H | now apply NoDup_severity_length].
Qed.

(** ** The filter pipeline *)

Lemma filter_sublist {A} (p : A -> bool) l : List.filter p l `sublist_of` l.
Proof.
  induction l as [|x l IH]; simpl; [constructor|].
  destruct (p x); now constructor.
Qed.

Lemma filter_sublist_impl {A} (p q : A -> bool) l :
  (forall x, In x l -> p x = true -> q x = true) ->
  List.filter p l `sublist_of` List.filter q l.
Proof.
  induction l as [|x l IH]; intros H; simpl; [constructor|].
  assert (IH' : List.filter p l `sublist_of` List.filter q l)
    by (apply IH; intros y Hy; apply H; now right).
  destruct (p x) eqn:Hp.
  - rewrite (H x (or_introl eq_refl) Hp). now constructor.
  - destruct (q x); [now constructor | exact IH'].
Qed.

Lemma sublist_filter_mono {A} (p : A -> bool) l1 l2 :
  l1 `sublist_of` l2 -> List.filter p l1 `sublist_of` List.filter p l2.
Proof.
  induction 1 as [|x l1 l2 H IH|x l1 l2 H IH]; simpl.
  - constructor.
  - destruct (p x); [now constructor | exact IH].
  - destruct (p x); [now constructor | exact IH].
Qed.

Lemma filter_ext_In {A} (p q : A -> bool) l :
  (forall x, In x l -> p x = q x) -> List.filter p l = List.filter q l.
Proof.
  induction l as [|x l IH]; intros H; simpl; [reflexivity|].
  rewrite (H x (or_introl eq_refl)), IH; [reflexivity|].
  intros y Hy. apply H. now right.
Qed.

Lemma filter_idem {A} (p : A -> bool) l :
  List.filter p (List.filter p l) = List.filter p l.
Proof.
  apply filter_all. intros x Hx. now apply filter_In in Hx.
Qed.

Lemma filter_comm {A} (p q : A -> bool) l :
  List.filter p (List.filter q l) = List.filter q (List.filter p l).
Proof.
  induction l as [|x l IH]; simpl; [reflexivity|].
  destruct (p x) eqn:Hp, (q x) eqn:Hq; simpl; rewrite ?Hp, ?Hq, IH; reflexivity.
Qed.

Lemma existsb_severity_ext v fs fs' :
  (forall g, In g fs <-> In g fs') ->
  existsb (severity_eqb v) fs = existsb (severity_eqb v) fs'.
Proof.
  intros H. apply eq_true_iff_eq. rewrite !existsb_severity. apply H.
Qed.

Section PipelineProperties.
Variable toLowerCase : jsstring -> jsstring.

Lemma pipelineGives_filtered arr term fs s bs :
  buildingArrays s !! arr = Some bs ->
  pipelineGives toLowerCase arr term fs s (filtered toLowerCase term fs bs).
Proof.
  intros Hb.
  destruct (filterPipeline_run toLowerCase arr term fs s bs Hb)
    as (out & s' & Hrun & Hout & _).
  now exists out, s'.
Qed.

(** The filtered list with the severity part written as one filter. *)
Lemma filtered_eq term fs bs :
  filtered toLowerCase term fs bs
  = List.filter
      (fun b => match fs with
                | [] => true
                | _ :: _ => existsb (severity_eqb (severityOf b)) fs
                end)
      (List.filter (searchHit toLowerCase (toLowerCase (trim term))) bs).
Proof.
  unfold filtered. destruct fs; [|reflexivity].
  symmetry. now apply filter_all.
Qed.

Lemma filtered_ext term fs fs' bs :
  (forall g, In g fs <-> In g fs') ->
  filtered toLowerCase term fs bs = filtered toLowerCase term fs' bs.
Proof.
  intros H. rewrite !filtered_eq. apply filter_ext_In. intros b _.
  destruct fs as [|f fs], fs' as [|f' fs']; try reflexivity.
  - destruct (proj2 (H f') (or_introl eq_refl)).
  - destruct (proj1 (H f) (or_introl eq_refl)).
  - now apply existsb_severity_ext.
Qed.

Lemma filtered_idem term fs bs :
  filtered toLowerCase term fs (filtered toLowerCase term fs bs)
  = filtered toLowerCase term fs bs.
Proof.
  rewrite !filtered_eq.
  set (p := searchHit _ _). set (q := fun b : building => _).
  rewrite (filter_comm p q (List.filter p bs)).
  now rewrite !filter_idem.
Qed.

(** X5: the active filters act as a set: two lists of the same labels
    give the same filtered list, and so does a second click on the
    button just clicked. *)
Theorem filterPipeline_filters_as_set (arr : loc) (term : jsstring)
    (fs fs' : list severity) (f : severity) (s : store)
    (bs : list building) :
  buildingArrays s !! arr = Some bs ->
  (forall g, In g fs <-> In g fs') ->
  exists l,
    pipelineGives toLowerCase arr term fs s l /\
    pipelineGives toLowerCase arr term fs' s l /\
    pipelineGives toLowerCase arr term
      (toggleFilter f (toggleFilter f fs)) s l.
Proof.
  intros Hb Hset. exists (filtered toLowerCase term fs bs).
  split; [now apply pipelineGives_filtered|]. split.
  - rewrite (filtered_ext term fs fs' bs Hset).
    now apply pipelineGives_filtered.
  - rewrite (filtered_ext term fs (toggleFilter f (toggleFilter f fs)) bs).
    + now apply pipelineGives_filtered.
    + intros g. rewrite !toggleFilter_In.
      destruct (severity_eqb g f) eqn:Hg.
      * apply severity_eqb_eq in Hg. subst g.
        assert (Hdec : In f fs \/ ~ In f fs).
        { destruct (existsb (severity_eqb f) fs) eqn:E.
          - left. now apply existsb_severity.
          - right. apply not_true_iff_false in E.
            now rewrite existsb_severity in E. }
        tauto.
      * apply severity_eqb_neq in Hg. tauto.
Qed.

(** X6: the filtered list is the building list with some buildings
    left out: nothing is added, repeated or reordered. *)
Theorem filterPipeline_sublist (arr : loc) (term : jsstring)
    (fs : list severity) (s : store) (bs : list building) :
  buildingArrays s !! arr = Some bs ->
  exists l,
    pipelineGives toLowerCase arr term fs s l /\ l `sublist_of` bs.
Proof.
  intros Hb. exists (filtered toLowerCase term fs bs).
  split; [now apply pipelineGives_filtered|].
  rewrite filtered_eq.
  etransitivity; apply filter_sublist.
Qed.

(** X7: the pipeline is idempotent: run on the array it handed over,
    with the same term and filters, it hands over the same list. *)
Theorem filterPipeline_idempotent (arr : loc) (term : jsstring)
    (fs : list severity) (s : store) (bs : list building) :
  buildingArrays s !! arr = Some bs ->
  exists out s' l,
    filterPipeline toLowerCase arr term fs s = Ok (out, s') /\
    buildingArrays s' !! out = Some l /\
    pipelineGives toLowerCase out term fs s' l.
Proof.
  intros Hb.
  destruct (filterPipeline_run toLowerCase arr term fs s bs Hb)
    as (out & s' & Hrun & Hout & _).
  exists out, s', (filtered toLowerCase term fs bs).
  split; [exact Hrun|]. split; [exact Hout|].
  pose proof (pipelineGives_filtered out term fs s' _ Hout) as Hagain.
  rewrite filtered_idem in Hagain. exact Hagain.
Qed.

End PipelineProperties.

Lemma filter_by_severity_partition {A} (cls : A -> severity) l :
  Permutation
    (List.filter (fun x => severity_eqb (cls x) Severe) l
     ++ List.filter (fun x => severity_eqb (cls x) Caution) l
     ++ List.filter (fun x => severity_eqb (cls x) Observe) l)
    l.
Proof.
  induction l as [|x l IH]; simpl; [reflexivity|].
  destruct (cls x); simpl.
  - now constructor.
  - rewrite <- Permutation_middle. now constructor.
  - rewrite app_assoc, <- Permutation_middle, <- app_assoc. now constructor.
Qed.

Lemma includes_trans s t t' :
  includes s t' = true ->
  (exists pre post, t' = pre ++ t ++ post) ->
  includes s t = true.
Proof.
  rewrite !includes_spec. intros (p & q & ->) (pre & post & ->).
  exists (p ++ pre), (post ++ q). now rewrite <- !app_assoc.
Qed.

Section PipelineComposition.
Variable toLowerCase : jsstring -> jsstring.

Lemma filtered_single term v bs :
  filtered toLowerCase term [v] bs
  = List.filter (fun b => severity_eqb (severityOf b) v)
      (filtered toLowerCase term [] bs).
Proof.
  unfold filtered. apply filter_ext_In. intros b _. simpl.
  now rewrite orb_false_r.
Qed.

(** X8: with all three filters active the pipeline hands over the list
    it hands over with none active. *)
Theorem filterPipeline_all_filters (arr : loc) (term : jsstring)
    (fs : list severity) (s : store) (bs : list building) :
  buildingArrays s !! arr = Some bs ->
  In Severe fs -> In Caution fs -> In Observe fs ->
  exists l,
    pipelineGives toLowerCase arr term fs s l /\
    pipelineGives toLowerCase arr term [] s l.
Proof.
  intros Hb H1 H2 H3. exists (filtered toLowerCase term [] bs).
  split; [|now apply pipelineGives_filtered].
  replace (filtered toLowerCase term [] bs)
    with (filtered toLowerCase term fs bs);
    [now apply pipelineGives_filtered|].
  rewrite !filtered_eq. apply filter_ext_In. intros b _.
  destruct fs as [|f fs]; [reflexivity|].
  apply existsb_severity. now destruct (severityOf b).
Qed.

(** X9: the three filters split the list: every building of the list
    handed over without filter is in the list of exactly one filter. *)
Theorem filterPipeline_partition (arr : loc) (term : jsstring) (s : store)
    (bs : list building) :
  buildingArrays s !! arr = Some bs ->
  exists severe caution observe all,
    pipelineGives toLowerCase arr term [Severe] s severe /\
    pipelineGives toLowerCase arr term [Caution] s caution /\
    pipelineGives toLowerCase arr term [Observe] s observe /\
    pipelineGives toLowerCase arr term [] s all /\
    Permutation (severe ++ caution ++ observe) all /\
    (forall b, ~ (In b severe /\ In b caution) /\
               ~ (In b severe /\ In b observe) /\
               ~ (In b caution /\ In b observe)).
Proof.
  intros Hb.
  exists (filtered toLowerCase term [Severe] bs),
         (filtered toLowerCase term [Caution] bs),
         (filtered toLowerCase term [Observe] bs),
         (filtered toLowerCase term [] bs).
  repeat (split; [now apply pipelineGives_filtered|]).
  rewrite !filtered_single. split.
  - apply filter_by_severity_partition.
  - intros b. rewrite !filter_In, !severity_eqb_eq.
    repeat split; intros [[_ H1] [_ H2]]; congruence.
Qed.

(** X10: typing on narrows the result: when the term in use, trimmed
    and lower-cased, occurs in the new one, the new list is the old one
    with some buildings left out. *)
Theorem filterPipeline_narrows (arr : loc) (term term' : jsstring)
    (fs : list severity) (s : store) (bs : list building) :
  buildingArrays s !! arr = Some bs ->
  (exists pre post,
     toLowerCase (trim term')
     = pre ++ toLowerCase (trim term) ++ post) ->
  exists l l',
    pipelineGives toLowerCase arr term fs s l /\
    pipelineGives toLowerCase arr term' fs s l' /\
    l' `sublist_of` l.
Proof.
  intros Hb Hsub.
  exists (filtered toLowerCase term fs bs), (filtered toLowerCase term' fs bs).
  split; [now apply pipelineGives_filtered|].
  split; [now apply pipelineGives_filtered|].
  rewrite !filtered_eq. apply sublist_filter_mono, filter_sublist_impl.
  intros b _. unfold searchHit, fieldHit.
  destruct (nonEmpty (toLowerCase (trim term'))) eqn:Hne'.
  - simpl. rewrite !orb_true_iff. intros [H|H].
    + left. right. destruct (name b); [|discriminate].
      eapply includes_trans; eauto.
    + right. destruct (address b); [|discriminate].
      eapply includes_trans; eauto.
  - intros _. destruct Hsub as (pre & post & Heq).
    destruct (toLowerCase (trim term')); [|discriminate].
    symmetry in Heq. apply app_eq_nil in Heq as [_ Heq].
    apply app_eq_nil in Heq as [-> _]. reflexivity.
Qed.

(** X11: a building without name and without address is found by the
    empty term only: the text filter keeps it exactly when the term,
    trimmed and lower-cased, is empty. *)
Theorem filterPipeline_nameless (arr : loc) (term : jsstring) (s : store)
    (bs : list building) (b : building) :
  buildingArrays s !! arr = Some bs ->
  In b bs -> name b = None -> address b = None ->
  exists l,
    pipelineGives toLowerCase arr term [] s l /\
    (In b l <-> toLowerCase (trim term) = []).
Proof.
  intros Hb Hin Hn Ha. exists (filtered toLowerCase term [] bs).
  split; [now apply pipelineGives_filtered|].
  unfold filtered. rewrite filter_In. unfold searchHit, fieldHit.
  rewrite Hn, Ha, !orb_false_r, negb_true_iff.
  destruct (toLowerCase (trim term)); simpl; split; intros H;
    try tauto; try discriminate. now destruct H.
Qed.

(** X12: the two steps commute: the severity filter first and the text
    filter on its result hand over the list the pipeline hands over. *)
Theorem filter_steps_commute (arr : loc) (term : jsstring)
    (fs : list severity) (s : store) (bs : list building) :
  buildingArrays s !! arr = Some bs ->
  exists mid s1 out s2 l,
    severityFilter fs arr s = Ok (mid, s1) /\
    textFilter toLowerCase mid term s1 = Ok (out, s2) /\
    buildingArrays s2 !! out = Some l /\
    pipelineGives toLowerCase arr term fs s l.
Proof.
  intros Hb. rewrite (severityFilter_run fs arr s bs Hb).
  assert (Hnew : forall (pre : list (list building)) (l : list building),
             (pre ++ [l]) !! length pre = Some l)
    by (intros pre l; now rewrite lookup_app_r, Nat.sub_diag by lia).
  destruct fs as [|f fs].
  - exists arr, s. rewrite (textFilter_run toLowerCase arr term s bs Hb).
    eexists _, _, _. split; [reflexivity|]. split; [reflexivity|].
    split; [apply Hnew|].
    now apply (pipelineGives_filtered toLowerCase arr term [] s bs).
  - eexists _, _, _, _, _. split; [reflexivity|].
    split; [apply textFilter_run; apply Hnew|]. cbn [buildingArrays].
    split; [apply Hnew|].
    rewrite filter_comm.
    now apply (pipelineGives_filtered toLowerCase arr term (f :: fs) s bs).
Qed.

End PipelineComposition.

(** ** crackStats *)

Lemma statsGive_ranking arr s bs :
  buildingArrays s !! arr = Some bs ->
  statsGive arr s (widthCount bs) (ranking KCrackCount bs)
            (ranking KMaxWidth bs) (ranking KAvgWidth bs).
Proof.
  intros Hb. unfold statsGive. rewrite (crackStats_run arr s bs Hb).
  eexists _, _. split; [reflexivity|].
  cbn [totalCracks statArrays sortedByCount sortedByWidth sortedByAvgWidth].
  assert (Hat : forall k (l : list (list stat)),
             (statArrays s ++ l) !! (length (statArrays s) + k)%nat = l !! k).
  { intros k l. rewrite lookup_app_r by lia. f_equal. lia. }
  rewrite !Hat. repeat split.
Qed.

Lemma descending_app {A} (key : A -> Q) l1 l2 :
  descending key (l1 ++ l2) ->
  forall x y, In x l1 -> In y l2 -> (key y <= key x)%Q.
Proof.
  unfold descending. induction l1 as [|a l1 IH]; intros Hs x y Hx Hy;
    [destruct Hx|].
  simpl in Hs. apply StronglySorted_inv in Hs as [Hs Ha].
  destruct Hx as [<-|Hx]; [|now apply IH].
  rewrite List.Forall_forall in Ha. apply Ha, in_or_app. now right.
Qed.

Lemma ranking_topThree key bs : topThree key (statsOf bs) (ranking key bs).
Proof.
  unfold ranking, topThree.
  set (sorted := stableSort (byKeyDesc key) (statsOf bs)).
  exists (skipn 3 sorted). rewrite firstn_skipn. repeat split.
  - apply (stableSort_perm (getKey key)).
  - rewrite length_firstn. f_equal.
    apply Permutation_length, (stableSort_perm (getKey key)).
  - apply descending_app. rewrite firstn_skipn.
    apply (stableSort_descending (getKey key)).
Qed.

Lemma statOf_In_statsOf b bs e :
  In b bs -> statOf b = Some e -> In e (statsOf bs).
Proof.
  intros Hb He. unfold statsOf. rewrite <- list_elem_of_In, list_elem_of_omap.
  exists b. split; [now apply list_elem_of_In | exact He].
Qed.

Lemma widthCount_statsOf bs :
  widthCount bs = list_sum (map crackCount (statsOf bs)).
Proof.
  unfold statsOf. induction bs as [|b bs IH]; [reflexivity|].
  change (omap statOf (b :: bs))
    with (match statOf b with
          | Some e => e :: omap statOf bs
          | None => omap statOf bs
          end).
  cbn [widthCount]. rewrite IH. unfold statOf.
  now destruct (nonNullWidths b).
Qed.

Lemma filter_none {A} (p : A -> bool) l :
  (forall x, In x l -> p x = false) -> List.filter p l = [].
Proof.
  induction l as [|x l IH]; intros H; simpl; [reflexivity|].
  rewrite (H x (or_introl eq_refl)). apply IH. intros y Hy. apply H. now right.
Qed.

Lemma list_sum_Permutation l l' :
  Permutation l l' -> list_sum l = list_sum l'.
Proof. induction 1; simpl; lia. Qed.


(** X14: the counts of the ranking by count never add up to more than
    the total, and add up to it when at most three buildings have a
    measured crack; the total is 0 exactly when no crack record carries
    a width, and exactly then the three rankings are empty. *)
Theorem crackStats_total_and_rankings (arr : loc) (s : store)
    (bs : list building) :
  buildingArrays s !! arr = Some bs ->
  exists total byCount byWidth byAvg,
    statsGive arr s total byCount byWidth byAvg /\
    (list_sum (map crackCount byCount) <= total)%nat /\
    ((length (List.filter hasMeasuredCrack bs) <= 3)%nat ->
     list_sum (map crackCount byCount) = total) /\
    (total = 0%nat
     <-> forall b c, In b bs -> In c (buildingCracks b) -> widthMm c = None) /\
    (total = 0%nat <-> byCount = []) /\
    (total = 0%nat <-> byWidth = []) /\
    (total = 0%nat <-> byAvg = []).
Proof.
  intros Hb. eexists _, _, _, _.
  split; [apply statsGive_ranking; exact Hb|].
  destruct (ranking_topThree KCrackCount bs) as (rest & Hperm & Hlen & _).
  assert (Hsum : widthCount bs
                 = (list_sum (map crackCount (ranking KCrackCount bs))
                    + list_sum (map crackCount rest))%nat).
  { rewrite widthCount_statsOf.
    rewrite <- (list_sum_Permutation _ _ (Permutation_map crackCount Hperm)).
    now rewrite map_app, list_sum_app. }
  assert (Hentries : length (statsOf bs)
                     = length (List.filter hasMeasuredCrack bs))
    by apply (Forall2_length _ _ _ (statsOf_entries bs)).
  assert (Hzero : widthCount bs = 0%nat <-> statsOf bs = []).
  { rewrite widthCount_statsOf. split.
    - intros H0. destruct (statsOf bs) as [|e es] eqn:He; [reflexivity|].
      assert (Hin : In e (statsOf bs)) by (rewrite He; now left).
      destruct (statsOf_In e bs Hin) as (_ & _ & _ & _ & _ & Hpos & _).
      simpl in H0. lia.
    - now intros ->. }
  assert (Hempty : forall key, statsOf bs = [] <-> ranking key bs = []).
  { intros key. destruct (ranking_topThree key bs) as (r & Hp & Hl & _).
    split.
    - intros Hnil. rewrite Hnil in Hl. now apply length_zero_iff_nil.
    - intros Hnil. rewrite Hnil in Hl. change (length (@nil stat)) with 0%nat in Hl.
      apply length_zero_iff_nil. lia. }
  split; [lia|]. split.
  { intros Hfew. rewrite <- Hentries in Hfew.
    assert (length rest = 0%nat).
    { apply Permutation_length in Hperm. rewrite length_app in Hperm. lia. }
    destruct rest; [simpl in Hsum; lia | discriminate]. }
  split.
  { rewrite widthCount_measured. split.
    - intros H0 b c Hin Hc.
      assert (Hb0 : measuredCount b = 0%nat).
      { clear -H0 Hin. induction bs as [|b' bs' IH]; [destruct Hin|].
        simpl in H0. destruct Hin as [->|Hin]; [lia|]. apply IH; [lia|exact Hin]. }
      unfold measuredCount in Hb0. apply length_zero_iff_nil in Hb0.
      destruct (widthMm c) eqn:Hw; [|reflexivity].
      assert (Hcf : In c (List.filter hasWidth (buildingCracks b)))
        by (apply filter_In; split; [exact Hc|]; unfold hasWidth; now rewrite Hw).
      now rewrite Hb0 in Hcf.
    - intros Hnone. clear -Hnone.
      induction bs as [|b bs IH]; [reflexivity|]. simpl.
      rewrite IH by (intros b' c Hb' Hc; apply (Hnone b' c); [now right|exact Hc]).
      unfold measuredCount. rewrite filter_none; [reflexivity|].
      intros c Hc. unfold hasWidth.
      now rewrite (Hnone b c (or_introl eq_refl) Hc). }
  repeat split; intros H; try (apply Hempty, Hzero, H);
    apply Hzero; eapply Hempty; exact H.
Qed.

Lemma ranking_head key bs :
  statsOf bs <> [] ->
  exists e tl,
    ranking key bs = e :: tl /\ In e (statsOf bs) /\
    forall x, In x (statsOf bs) -> (getKey key x <= getKey key e)%Q.
Proof.
  intros Hne.
  destruct (ranking_topThree key bs) as (rest & Hperm & Hlen & Hrest).
  destruct (ranking_isRanking key bs) as (_ & Hdesc & Hin & _).
  destruct (ranking key bs) as [|e tl] eqn:Hr.
  - simpl in Hlen. destruct (statsOf bs); [congruence | discriminate].
  - exists e, tl. split; [reflexivity|]. split; [apply Hin; now left|].
    intros x Hx.
    apply (Permutation_in _ (Permutation_sym Hperm)) in Hx.
    apply in_app_or in Hx as [[<-|Hx]|Hx].
    + lra.
    + apply StronglySorted_inv in Hdesc as [_ Hall].
      rewrite List.Forall_forall in Hall. now apply Hall.
    + apply Hrest; [now left | exact Hx].
Qed.

Lemma hasMeasuredCrack_widths b :
  hasMeasuredCrack b = true <-> nonNullWidths b <> [].
Proof.
  unfold hasMeasuredCrack. rewrite nonNullWidths_eq, existsb_exists. split.
  - intros (c & Hc & Hw) Hnil. unfold hasWidth in Hw.
    destruct (widthMm c) as [w|] eqn:Hcw; [|discriminate].
    assert (Hin : In w (filterNonNull (map widthMm (buildingCracks b))))
      by (apply In_filterNonNull; now exists c).
    now rewrite Hnil in Hin.
  - intros Hne.
    destruct (filterNonNull (map widthMm (buildingCracks b))) as [|w ws] eqn:E;
      [congruence|].
    assert (Hin : In w (filterNonNull (map widthMm (buildingCracks b))))
      by (rewrite E; now left).
    apply In_filterNonNull in Hin as (c & Hc & Hcw).
    exists c. split; [exact Hc|]. unfold hasWidth. now rewrite Hcw.
Qed.

(** X15: when a crack has a width, the first entry of the ranking by
    maximum width carries the greatest width of the whole building
    list, and the first entry of the ranking by count the greatest
    count of measured cracks of a building. *)
Theorem crackStats_leaders (arr : loc) (s : store) (bs : list building) :
  buildingArrays s !! arr = Some bs ->
  (exists b, In b bs /\ hasMeasuredCrack b = true) ->
  exists total byCount byWidth byAvg c w,
    statsGive arr s total byCount byWidth byAvg /\
    hd_error byCount = Some c /\ hd_error byWidth = Some w /\
    isMaximum (maxWidth w) (flat_map nonNullWidths bs) /\
    (exists b, In b bs /\ entryOf c b) /\
    (forall b, In b bs -> (length (nonNullWidths b) <= crackCount c)%nat).
Proof.
  intros Hb (b0 & Hb0 & Hm0).
  assert (Hne : statsOf bs <> []).
  { apply hasMeasuredCrack_widths in Hm0. unfold statsOf. intros Hnil.
    assert (Hin : exists e, In e (omap statOf bs)).
    { unfold statOf at 1. destruct (nonNullWidths b0) as [|w ws] eqn:E;
        [congruence|].
      eexists. eapply statOf_In_statsOf; [exact Hb0|].
      unfold statOf. rewrite E. reflexivity. }
    destruct Hin as (e & He). now rewrite Hnil in He. }
  destruct (ranking_head KCrackCount bs Hne) as (c & tc & Hc & Hcin & Hcmax).
  destruct (ranking_head KMaxWidth bs Hne) as (w & tw & Hw & Hwin & Hwmax).
  eexists _, _, _, _, c, w.
  split; [apply statsGive_ranking; exact Hb|].
  rewrite Hc, Hw. split; [reflexivity|]. split; [reflexivity|].
  assert (Hentry : forall b e, In b bs -> statOf b = Some e ->
            forall x, In x (nonNullWidths b) -> (x <= maxWidth e)%Q).
  { intros b e _ He x Hx. unfold statOf in He.
    destruct (nonNullWidths b) as [|y ys]; [destruct Hx|].
    injection He as <-. simpl. now apply Math_max_upper. }
  split; [|split].
  - split.
    + destruct (statsOf_In w bs Hwin) as (b & Hbin & _).
      apply list_elem_of_In, list_elem_of_omap in Hwin as (b' & Hb' & He').
      apply list_elem_of_In in Hb'. unfold statOf in He'.
      destruct (nonNullWidths b') as [|y ys] eqn:E; [discriminate|].
      injection He' as <-. simpl. exists (Math_max y ys).
      split; [|reflexivity]. apply in_flat_map. exists b'.
      split; [exact Hb'|]. rewrite E. apply Math_max_In.
    + intros x Hx. apply in_flat_map in Hx as (b & Hbin & Hx).
      destruct (statOf b) as [e|] eqn:He.
      * specialize (Hwmax e (statOf_In_statsOf b bs e Hbin He)).
        simpl in Hwmax. pose proof (Hentry b e Hbin He x Hx). lra.
      * unfold statOf in He.
        destruct (nonNullWidths b); [destruct Hx | discriminate].
  - destruct (statsOf_In c bs Hcin) as (b & Hbin & H1 & H2 & H3 & _).
    exists b. now repeat split.
  - intros b Hbin. destruct (statOf b) as [e|] eqn:He.
    + specialize (Hcmax e (statOf_In_statsOf b bs e Hbin He)).
      simpl in Hcmax. rewrite <- Zle_Qle in Hcmax.
      unfold statOf in He. destruct (nonNullWidths b) as [|y ys];
        [discriminate|]. injection He as <-. simpl in *. lia.
    + unfold statOf in He. destruct (nonNullWidths b); [simpl; lia|discriminate].
Qed.

(** ** The building card *)

Lemma distinct_spec l : forall seen,
  NoDup (BuildingCard.distinct seen l) /\
  (forall x, In x (BuildingCard.distinct seen l)
             <-> In x l /\ ~ In x seen) /\
  BuildingCard.distinct seen l `sublist_of` l.
Proof.
  induction l as [|y l IH]; intros seen; simpl.
  - split; [constructor|]. split; [intros x; simpl; tauto | constructor].
  - destruct (bool_decide (y ∈ seen)) eqn:Hy.
    + apply bool_decide_eq_true in Hy. apply list_elem_of_In in Hy.
      destruct (IH seen) as (Hnd & Hin & Hsub).
      split; [exact Hnd|]. split; [|now constructor].
      intros x. rewrite Hin. split; [tauto|].
      intros [[<-|Hx] Hns]; [contradiction | tauto].
    + apply bool_decide_eq_false in Hy. rewrite list_elem_of_In in Hy.
      destruct (IH (y :: seen)) as (Hnd & Hin & Hsub).
      split; [|split; [|now constructor]].
      * constructor; [|exact Hnd]. rewrite list_elem_of_In, Hin.
        simpl. tauto.
      * intros x. simpl. rewrite Hin. simpl.
        destruct (decide (y = x)) as [<-|Hne]; tauto.
Qed.

(** Of two values of the result, the first occurrence of the earlier
    one comes before every occurrence of the later one. *)
Lemma distinct_order l : forall seen pre x mid y post,
  BuildingCard.distinct seen l = pre ++ x :: mid ++ y :: post ->
  exists l1 l2, l = l1 ++ x :: l2 /\ ~ In x l1 /\ ~ In y l1.
Proof.
  induction l as [|z l IH]; intros seen pre x mid y post Hd; simpl in Hd.
  - now destruct pre.
  - assert (Hxy : forall seen' pre',
               BuildingCard.distinct seen' l = pre' ++ x :: mid ++ y :: post ->
               ~ In x seen' /\ ~ In y seen').
    { intros seen' pre' H. destruct (distinct_spec l seen') as (_ & Hin & _).
      rewrite H in Hin. split.
      - apply (Hin x). apply in_or_app. right. now left.
      - apply (Hin y). apply in_or_app. right. right.
        apply in_or_app. right. now left. }
    destruct (bool_decide (z ∈ seen)) eqn:Hz.
    + apply bool_decide_eq_true in Hz. apply list_elem_of_In in Hz.
      destruct (IH _ _ _ _ _ _ Hd) as (l1 & l2 & -> & Hx & Hy).
      destruct (Hxy seen _ Hd) as [Hxs Hys].
      exists (z :: l1), l2. split; [reflexivity|].
      split; intros [<-|H]; contradiction.
    + destruct pre as [|p pre].
      * injection Hd as -> _. exists [], l. split; [reflexivity|].
        split; intros [].
      * injection Hd as -> Hd.
        destruct (IH _ _ _ _ _ _ Hd) as (l1 & l2 & -> & Hx & Hy).
        destruct (Hxy (p :: seen) _ Hd) as [Hxs Hys].
        exists (p :: l1), l2. split; [reflexivity|].
        split; intros [<-|H]; try contradiction.
        -- apply Hxs. now left.
        -- apply Hys. now left.
Qed.

Section CardProperties.
Variable Date_time : jsstring -> option Z.
Variable toFixed : Q -> nat -> jsstring.

(** X16: the crack types of the card are the types of the cracks of
    the building, each once, in the order in which they first occur: of
    two types of the card, the one shown first has its first occurrence
    among the cracks before every occurrence of the other; there is
    none exactly when the building has no crack. *)
Theorem BuildingCard_crackTypes (b : building) :
  exists m,
    BuildingCard.BuildingCard Date_time toFixed b = Ok m /\
    NoDup (BuildingCard.crackTypes m) /\
    (forall t, In t (BuildingCard.crackTypes m)
               <-> exists c, In c (buildingCracks b) /\ crackType c = t) /\
    BuildingCard.crackTypes m `sublist_of` map crackType (buildingCracks b) /\
    (forall pre x mid y post,
       BuildingCard.crackTypes m = pre ++ x :: mid ++ y :: post ->
       exists l1 l2,
         map crackType (buildingCracks b) = l1 ++ x :: l2 /\
         ~ In x l1 /\ ~ In y l1) /\
    (BuildingCard.crackTypes m = [] <-> buildingCracks b = []).
Proof.
  exists (cardMetrics Date_time toFixed (cardCracks b)).
  split; [apply BuildingCard_eq|]. cbn [cardMetrics BuildingCard.crackTypes].
  assert (Hmap : map (fun c => crackType (BuildingCard.source c)) (cardCracks b)
                 = map crackType (buildingCracks b))
    by (now rewrite <- cardCracks_source, map_map).
  rewrite Hmap.
  destruct (distinct_spec (map crackType (buildingCracks b)) [])
    as (Hnd & Hin & Hsub).
  split; [exact Hnd|]. split; [|split; [exact Hsub|split]].
  2:{ intros pre x mid y post Hd. exact (distinct_order _ _ _ _ _ _ _ Hd). }
  - intros t. rewrite Hin, in_map_iff. simpl. split.
    + intros [(c & Ht & Hc) _]. now exists c.
    + intros (c & Hc & Ht). split; [now exists c | tauto].
  - split.
    + intros Hnil. destruct (buildingCracks b) as [|c cs]; [reflexivity|].
      assert (Hc : In (crackType c)
                      (BuildingCard.distinct [] (map crackType (c :: cs))))
        by (apply Hin; simpl; tauto).
      now rewrite Hnil in Hc.
    + now intros ->.
Qed.

(** X17: every crack of the flattened list carries the label of the
    waypoint it belongs to, and the crack count is the sum of the
    numbers of cracks of the waypoints, an absent list counting 0. *)
Theorem BuildingCard_flattens (b : building) :
  exists m,
    BuildingCard.BuildingCard Date_time toFixed b = Ok m /\
    (forall fc, In fc (BuildingCard.allCracks m) ->
       exists wp, In wp (waypointList b) /\
                  BuildingCard.waypointLabel fc = label wp /\
                  In (BuildingCard.source fc) (crackList wp)) /\
    BuildingCard.crackCount m
    = list_sum (map (fun wp => length (crackList wp)) (waypointList b)).
Proof.
  exists (cardMetrics Date_time toFixed (cardCracks b)).
  split; [apply BuildingCard_eq|].
  cbn [cardMetrics BuildingCard.allCracks BuildingCard.crackCount].
  unfold cardCracks. split.
  - intros fc Hfc. apply in_flat_map in Hfc as (wp & Hwp & Hfc).
    apply in_map_iff in Hfc as (c & <- & Hc). now exists wp.
  - induction (waypointList b) as [|wp ws IH]; [reflexivity|].
    simpl. now rewrite length_app, length_map, IH.
Qed.

Lemma reduce_later_last cs : forall c,
  (forall x, In x (c :: cs) -> timeOf Date_time x <> None) ->
  exists pre r post tr,
    c :: cs = pre ++ r :: post /\
    fold_left (BuildingCard.later Date_time) cs c = r /\
    timeOf Date_time r = Some tr /\
    (forall x, In x pre ->
       exists t, timeOf Date_time x = Some t /\ (t <= tr)%Z) /\
    (forall x, In x post ->
       exists t, timeOf Date_time x = Some t /\ (t < tr)%Z).
Proof.
  induction cs as [|d cs IH] using rev_ind; intros c Hv.
  - destruct (timeOf Date_time c) as [t|] eqn:Ht;
      [|now destruct (Hv c (or_introl eq_refl))].
    exists [], c, [], t. repeat split; try reflexivity; try exact Ht;
      intros x [].
  - destruct (IH c) as (pre & r & post & tr & Hsplit & Hfold & Htr & Hpre & Hpost).
    { intros x Hx. apply Hv. simpl in *. rewrite in_app_iff. tauto. }
    destruct (timeOf Date_time d) as [td|] eqn:Htd.
    2:{ exfalso. apply (Hv d); [|exact Htd]. simpl. rewrite in_app_iff.
        simpl. tauto. }
    rewrite fold_left_app. cbn [fold_left]. rewrite Hfold.
    unfold BuildingCard.later.
    change (Date_time (timestamp (BuildingCard.source r)))
      with (timeOf Date_time r).
    change (Date_time (timestamp (BuildingCard.source d)))
      with (timeOf Date_time d).
    rewrite Htr, Htd. cbn [BuildingCard.Date_gt].
    destruct (Z.ltb_spec td tr).
    + exists pre, r, (post ++ [d]), tr.
      split; [rewrite app_comm_cons, Hsplit, <- app_assoc; reflexivity|].
      repeat split; try assumption; try reflexivity.
      intros x Hx. apply in_app_or in Hx as [Hx|[<-|[]]]; [now apply Hpost|].
      now exists td.
    + exists (c :: cs), d, [], td.
      split; [now rewrite app_comm_cons|].
      repeat split; try assumption; try reflexivity; [|intros x []].
      intros x Hx. rewrite Hsplit in Hx.
      apply in_app_or in Hx as [Hx|[<-|Hx]].
      * destruct (Hpre x Hx) as (t & Ht & Hle). exists t. split; [exact Ht|lia].
      * exists tr. split; [exact Htr | lia].
      * destruct (Hpost x Hx) as (t & Ht & Hle). exists t. split; [exact Ht|lia].
Qed.

(** X18: the timestamps being dates, last-checked is the timestamp of
    the last crack of the flattened list among those of the latest
    time: every crack after it is strictly earlier. *)
Theorem BuildingCard_lastChecked_last (b : building) :
  buildingCracks b <> [] ->
  (forall c, In c (buildingCracks b) -> Date_time (timestamp c) <> None) ->
  exists m pre r post tr,
    BuildingCard.BuildingCard Date_time toFixed b = Ok m /\
    BuildingCard.allCracks m = pre ++ r :: post /\
    BuildingCard.lastChecked m = Some (timestamp (BuildingCard.source r)) /\
    timeOf Date_time r = Some tr /\
    (forall x, In x pre ->
       exists t, timeOf Date_time x = Some t /\ (t <= tr)%Z) /\
    (forall x, In x post ->
       exists t, timeOf Date_time x = Some t /\ (t < tr)%Z).
Proof.
  intros Hne Hvalid.
  exists (cardMetrics Date_time toFixed (cardCracks b)).
  cbn [cardMetrics BuildingCard.allCracks BuildingCard.lastChecked].
  assert (Hv : forall x, In x (cardCracks b) -> timeOf Date_time x <> None).
  { intros x Hx. apply Hvalid. rewrite <- cardCracks_source.
    now apply in_map. }
  destruct (cardCracks b) as [|c cs] eqn:Hcs.
  - rewrite <- cardCracks_source, Hcs in Hne. now destruct Hne.
  - destruct (reduce_later_last cs c Hv)
      as (pre & r & post & tr & Hsplit & Hfold & Htr & Hpre & Hpost).
    exists pre, r, post, tr. rewrite <- Hcs at 1. rewrite Hfold.
    split; [apply BuildingCard_eq|]. now repeat split.
Qed.

(** X19: a date that does not parse wins every comparison from the
    right: when the last crack of the flattened list has an invalid
    timestamp, last-checked is that timestamp, whatever the dates of
    the other cracks. *)
Theorem BuildingCard_lastChecked_invalid (b : building) :
  exists m,
    BuildingCard.BuildingCard Date_time toFixed b = Ok m /\
    forall pre z,
      BuildingCard.allCracks m = pre ++ [z] ->
      timeOf Date_time z = None ->
      BuildingCard.lastChecked m
      = Some (timestamp (BuildingCard.source z)).
Proof.
  exists (cardMetrics Date_time toFixed (cardCracks b)).
  split; [apply BuildingCard_eq|].
  cbn [cardMetrics BuildingCard.allCracks BuildingCard.lastChecked].
  intros pre z Hsplit Hz. rewrite Hsplit.
  destruct pre as [|c cs]; [reflexivity|].
  simpl. rewrite fold_left_app. cbn [fold_left]. unfold BuildingCard.later at 1.
  change (Date_time (timestamp (BuildingCard.source z)))
    with (timeOf Date_time z).
  rewrite Hz. unfold BuildingCard.Date_gt.
  now destruct (Date_time _).
Qed.

Lemma cardCount_records b :
  cardCount Date_time toFixed b = length (buildingCracks b).
Proof.
  unfold cardCount. rewrite BuildingCard_eq.
  cbn [cardMetrics BuildingCard.crackCount].
  now rewrite <- cardCracks_source, length_map.
Qed.

Lemma filter_length_all {A} (p : A -> bool) l :
  length (List.filter p l) = length l <-> forall x, In x l -> p x = true.
Proof.
  split.
  - intros Hlen x Hx. destruct (p x) eqn:Hp; [reflexivity|].
    pose proof (filter_length_lt p l x Hx Hp). lia.
  - intros H. now rewrite filter_all.
Qed.

(** X20: the total of the summary never exceeds the sum of the crack
    counts the cards show, and equals it exactly when every crack
    record of the building list carries a width. *)
Theorem total_and_card_counts (arr : loc) (s : store) (bs : list building) :
  buildingArrays s !! arr = Some bs ->
  exists total byCount byWidth byAvg,
    statsGive arr s total byCount byWidth byAvg /\
    (total <= list_sum (map (cardCount Date_time toFixed) bs))%nat /\
    (total = list_sum (map (cardCount Date_time toFixed) bs)
     <-> forall b c, In b bs -> In c (buildingCracks b) -> widthMm c <> None).
Proof.
  intros Hb. eexists _, _, _, _.
  split; [apply statsGive_ranking; exact Hb|].
  rewrite widthCount_measured. clear Hb.
  induction bs as [|b bs (IHle & IHeq)]; simpl.
  - split; [lia|]. split; [intros _ b c [] | reflexivity].
  - rewrite cardCount_records. unfold measuredCount at 1 3.
    pose proof (List.filter_length_le hasWidth (buildingCracks b)) as Hle.
    split; [lia|]. split.
    + intros Heq b' c [<-|Hb'] Hc.
      * assert (Hall : length (List.filter hasWidth (buildingCracks b))
                       = length (buildingCracks b)) by lia.
        rewrite filter_length_all in Hall. specialize (Hall c Hc).
        unfold hasWidth in Hall. now destruct (widthMm c).
      * assert (Hrest : list_sum (map measuredCount bs)
                        = list_sum (map (cardCount Date_time toFixed) bs))
          by lia.
        exact (proj1 IHeq Hrest b' c Hb' Hc).
    + intros Hall.
      rewrite (proj2 (filter_length_all hasWidth (buildingCracks b))).
      * f_equal. apply IHeq. intros b' c Hb' Hc. apply (Hall b' c); tauto.
      * intros c Hc. unfold hasWidth.
        specialize (Hall b c (or_introl eq_refl) Hc).
        now destruct (widthMm c).
Qed.

End CardProperties.

(** ** The initial load *)

Section Load.
Variable toLowerCase : jsstring -> jsstring.

(** X21: after a load that succeeds with the buildings data, the page
    is no longer loading and has no error, its building list is data,
    and the filter effect then lists exactly data; crackStats counts
    the measured cracks of data. *)
Theorem load_success (res : response) (data : list building) :
  toLowerCase [] = [] ->
  ok res = true -> json res = Fulfilled data ->
  exists st1 s1 st2 s2 total byCount byWidth byAvg,
    loadEffect (Fulfilled res) initialState initialStore = Ok (st1, s1) /\
    loading st1 = false /\ error st1 = None /\
    buildingArrays s1 !! buildings st1 = Some data /\
    preserved initialStore s1 /\
    filterEffect toLowerCase st1 s1 = Ok (st2, s2) /\
    buildingArrays s2 !! filteredBuildings st2 = Some data /\
    statsGive (buildings st1) s1 total byCount byWidth byAvg /\
    total = list_sum (map measuredCount data).
Proof.
  intros Hnil Hok Hjson. unfold loadEffect. rewrite Hok, Hjson. cbn [negb].
  unfold bind, newBuildings, ret, initialStore, initialState.
  cbn [buildingArrays statArrays filteredBuildings error searchTerm
       activeFilters length].
  set (st1 := PageState _ _ _ _ _ _). set (s1 := Store _ _).
  assert (Hb : buildingArrays s1 !! buildings st1 = Some data) by reflexivity.
  destruct (filterEffect_run toLowerCase st1 s1 data Hb)
    as (st2 & s2 & Hrun & _ & _ & Hout).
  specialize (Hout eq_refl eq_refl).
  assert (Hid : filtered toLowerCase (searchTerm st1) (activeFilters st1) data
                = data).
  { unfold filtered, st1. cbn [searchTerm activeFilters].
    change (trim []) with (@nil code_unit). rewrite Hnil.
    now apply filter_all. }
  rewrite Hid in Hout.
  exists st1, s1, st2, s2. eexists _, _, _, _.
  split; [reflexivity|]. split; [reflexivity|]. split; [reflexivity|].
  split; [exact Hb|]. split.
  { split; simpl; [now exists [data] | reflexivity]. }
  split; [exact Hrun|]. split; [exact Hout|].
  split; [apply statsGive_ranking; exact Hb|].
  apply widthCount_measured.
Qed.

(** X22: a load that fails leaves the store and the building list as
    they are, ends the loading and records the message: the one of the
    rejection, or the fixed one of the page when the response is not
    ok, whatever its body; the message being non-empty, the filter
    effect then changes nothing. *)
Theorem load_failure (fetched : settled response) (message : jsstring)
    (st : pageState) (s : store) :
  loadFails fetched message ->
  exists st1,
    loadEffect fetched st s = Ok (st1, s) /\
    loading st1 = false /\ error st1 = Some message /\
    buildings st1 = buildings st /\
    filteredBuildings st1 = filteredBuildings st /\
    (message <> [] -> filterEffect toLowerCase st1 s = Ok (st1, s)).
Proof.
  intros Hfail.
  assert (Hrun : loadEffect fetched st s
                 = Ok (PageState (buildings st) (filteredBuildings st) false
                         (Some message) (searchTerm st) (activeFilters st), s)).
  { unfold loadEffect.
    destruct Hfail as [->|(res & -> & [[Hok ->]|[Hok Hjson]])].
    - reflexivity.
    - now rewrite Hok.
    - now rewrite Hok, Hjson. }
  eexists. split; [exact Hrun|]. repeat split.
  intros Hne. unfold filterEffect.
  cbn [loading error truthyString]. 
  destruct message; [congruence|]. reflexivity.
Qed.

End Load.

(** ** The development proxy *)

(** X23: the rewrite of the proxy undoes the prefix "/api": a path
    made of "/api" and a rest is rewritten to the rest, whatever the
    rest, and a path that does not start with "/api" is left as it
    is. *)
Theorem rewrite_strips_api (path : jsstring) :
  (forall rest, path = str "/api" ++ rest -> rewrite path = rest) /\
  ((forall rest, path <> str "/api" ++ rest) -> rewrite path = path).
Proof.
  unfold rewrite. split.
  - intros rest ->.
    replace (startsWith (str "/api" ++ rest) (str "/api")) with true
      by (symmetry; apply startsWith_spec; now exists rest).
    reflexivity.
  - intros Hno. destruct (startsWith path (str "/api")) eqn:H; [|reflexivity].
    apply startsWith_spec in H as (rest & ->). now destruct (Hno rest).
Qed.

(** ** Instances of the properties above *)

(** The crack types of [demoTyped], whose cracks have the types
    "hairline", "shear" and "hairline": each once, "hairline" first. *)
Example demoTyped_crackTypes :
  exists m,
    BuildingCard.BuildingCard isoDateTime decimalToFixed demoTyped = Ok m /\
    map crackType (buildingCracks demoTyped)
    = [str "hairline"; str "shear"; str "hairline"] /\
    BuildingCard.crackTypes m = [str "hairline"; str "shear"].
Proof. eexists. split; [vm_compute; reflexivity|]. split; reflexivity. Qed.

(** The severity filter at the thresholds: of two buildings whose
    greatest widths are given as 0.3 and as 0.2, "severe" keeps the
    first and "caution" the second. *)
Example severityFilter_boundary :
  (exists s',
     severityFilter [Severe] 0%nat
       (Store [[demoWidths 1 [0.1; 0.3]%Q; demoWidths 2 [0.2; 0.1]%Q]] [])
     = Ok (1%nat, s') /\
     option_map (map id) (buildingArrays s' !! 1%nat) = Some [1%Z]) /\
  (exists s',
     severityFilter [Caution] 0%nat
       (Store [[demoWidths 1 [0.1; 0.3]%Q; demoWidths 2 [0.2; 0.1]%Q]] [])
     = Ok (1%nat, s') /\
     option_map (map id) (buildingArrays s' !! 1%nat) = Some [2%Z]).
Proof. split; eexists; split; vm_compute; reflexivity. Qed.

Lemma filterPipeline_filters_as_set_witness :
  exists l,
    pipelineGives asciiLowerCase 0 (str "se") [Severe; Caution] demoStore l /\
    pipelineGives asciiLowerCase 0 (str "se") [Caution; Severe] demoStore l /\
    pipelineGives asciiLowerCase 0 (str "se")
      (toggleFilter Observe (toggleFilter Observe [Severe; Caution]))
      demoStore l.
Proof.
  apply (filterPipeline_filters_as_set asciiLowerCase 0%nat (str "se")
           [Severe; Caution] [Caution; Severe] Observe demoStore demoList).
  - reflexivity.
  - intros g. simpl. tauto.
Defined.

Lemma filterPipeline_sublist_witness :
  exists l,
    pipelineGives asciiLowerCase 0 (str "se") [Severe] demoStore l /\
    l `sublist_of` demoList.
Proof.
  apply (filterPipeline_sublist asciiLowerCase 0%nat (str "se") [Severe]
           demoStore demoList).
  reflexivity.
Defined.

Lemma filterPipeline_idempotent_witness :
  exists out s' l,
    filterPipeline asciiLowerCase 0 (str "se") [Severe] demoStore
    = Ok (out, s') /\
    buildingArrays s' !! out = Some l /\
    pipelineGives asciiLowerCase out (str "se") [Severe] s' l.
Proof.
  apply (filterPipeline_idempotent asciiLowerCase 0%nat (str "se") [Severe]
           demoStore demoList).
  reflexivity.
Defined.

Lemma filterPipeline_all_filters_witness :
  exists l,
    pipelineGives asciiLowerCase 0 (str "se") [Observe; Severe; Caution]
      demoStore l /\
    pipelineGives asciiLowerCase 0 (str "se") [] demoStore l.
Proof.
  apply (filterPipeline_all_filters asciiLowerCase 0%nat (str "se")
           [Observe; Severe; Caution] demoStore demoList);
    [reflexivity | simpl; tauto | simpl; tauto | simpl; tauto].
Defined.

Lemma filterPipeline_partition_witness :
  exists severe caution observe all,
    pipelineGives asciiLowerCase 0 [] [Severe] demoStore severe /\
    pipelineGives asciiLowerCase 0 [] [Caution] demoStore caution /\
    pipelineGives asciiLowerCase 0 [] [Observe] demoStore observe /\
    pipelineGives asciiLowerCase 0 [] [] demoStore all /\
    Permutation (severe ++ caution ++ observe) all /\
    (forall b, ~ (In b severe /\ In b caution) /\
               ~ (In b severe /\ In b observe) /\
               ~ (In b caution /\ In b observe)).
Proof.
  apply (filterPipeline_partition asciiLowerCase 0%nat [] demoStore demoList).
  reflexivity.
Defined.

Lemma filterPipeline_narrows_witness :
  exists l l',
    pipelineGives asciiLowerCase 0 (str "se") [] demoStore l /\
    pipelineGives asciiLowerCase 0 (str " Seo") [] demoStore l' /\
    l' `sublist_of` l.
Proof.
  apply (filterPipeline_narrows asciiLowerCase 0%nat (str "se") (str " Seo")
           [] demoStore demoList).
  - reflexivity.
  - exists [], (str "o"). reflexivity.
Defined.

Lemma filterPipeline_nameless_witness :
  exists l,
    pipelineGives asciiLowerCase 0 (str "se") [] demoStore l /\
    (In demoNameless l <-> asciiLowerCase (trim (str "se")) = []).
Proof.
  apply (filterPipeline_nameless asciiLowerCase 0%nat (str "se") demoStore
           demoList demoNameless);
    [reflexivity | simpl; tauto | reflexivity | reflexivity].
Defined.

Lemma filter_steps_commute_witness :
  exists mid s1 out s2 l,
    severityFilter [Severe; Observe] 0 demoStore = Ok (mid, s1) /\
    textFilter asciiLowerCase mid (str "se") s1 = Ok (out, s2) /\
    buildingArrays s2 !! out = Some l /\
    pipelineGives asciiLowerCase 0 (str "se") [Severe; Observe] demoStore l.
Proof.
  apply (filter_steps_commute asciiLowerCase 0%nat (str "se")
           [Severe; Observe] demoStore demoList).
  reflexivity.
Defined.


(** The top three of [demoRanked] by average width: of the four entries
    the one of building 1, with the mean 0.2, is left out, the one of
    building 2, with the mean 0.20000000000000004, is in. *)
Example demoRanked_top_three :
  exists total byCount byWidth byAvg,
    statsGive 0 (Store [demoRanked] []) total byCount byWidth byAvg /\
    length (statsOf demoRanked) = 4%nat /\
    map st_id byAvg = [3; 4; 2]%Z /\
    map avgWidth (statsOf demoRanked)
    = [double 0.2; double 0.20000000000000004; double 0.5; double 0.4].
Proof.
  eexists _, _, _, _.
  split; [apply statsGive_ranking; reflexivity|].
  repeat split; vm_compute; reflexivity.
Qed.

Lemma crackStats_total_and_rankings_witness :
  exists total byCount byWidth byAvg,
    statsGive 0 demoStore total byCount byWidth byAvg /\
    (list_sum (map crackCount byCount) <= total)%nat /\
    ((length (List.filter hasMeasuredCrack demoList) <= 3)%nat ->
     list_sum (map crackCount byCount) = total) /\
    (total = 0%nat
     <-> forall b c, In b demoList -> In c (buildingCracks b) ->
                     widthMm c = None) /\
    (total = 0%nat <-> byCount = []) /\
    (total = 0%nat <-> byWidth = []) /\
    (total = 0%nat <-> byAvg = []).
Proof.
  apply (crackStats_total_and_rankings 0%nat demoStore demoList). reflexivity.
Defined.

Lemma crackStats_leaders_witness :
  exists total byCount byWidth byAvg c w,
    statsGive 0 demoStore total byCount byWidth byAvg /\
    hd_error byCount = Some c /\ hd_error byWidth = Some w /\
    isMaximum (maxWidth w) (flat_map nonNullWidths demoList) /\
    (exists b, In b demoList /\ entryOf c b) /\
    (forall b, In b demoList ->
               (length (nonNullWidths b) <= crackCount c)%nat).
Proof.
  apply (crackStats_leaders 0%nat demoStore demoList).
  - reflexivity.
  - exists demoA. split; [simpl; tauto | reflexivity].
Defined.

Lemma BuildingCard_lastChecked_last_witness :
  exists m pre r post tr,
    BuildingCard.BuildingCard isoDateTime decimalToFixed demoMixed = Ok m /\
    BuildingCard.allCracks m = pre ++ r :: post /\
    BuildingCard.lastChecked m = Some (timestamp (BuildingCard.source r)) /\
    timeOf isoDateTime r = Some tr /\
    (forall x, In x pre ->
       exists t, timeOf isoDateTime x = Some t /\ (t <= tr)%Z) /\
    (forall x, In x post ->
       exists t, timeOf isoDateTime x = Some t /\ (t < tr)%Z).
Proof.
  apply (BuildingCard_lastChecked_last isoDateTime decimalToFixed demoMixed).
  - discriminate.
  - intros c Hc. vm_compute in Hc.
    destruct Hc as [<-|[<-|[]]]; vm_compute; discriminate.
Defined.

Lemma total_and_card_counts_witness :
  exists total byCount byWidth byAvg,
    statsGive 0 demoStore total byCount byWidth byAvg /\
    (total <= list_sum (map (cardCount isoDateTime decimalToFixed) demoList))%nat /\
    (total = list_sum (map (cardCount isoDateTime decimalToFixed) demoList)
     <-> forall b c, In b demoList -> In c (buildingCracks b) ->
                     widthMm c <> None).
Proof.
  apply (total_and_card_counts isoDateTime decimalToFixed 0%nat demoStore
           demoList).
  reflexivity.
Defined.

Lemma load_success_witness :
  exists st1 s1 st2 s2 total byCount byWidth byAvg,
    loadEffect (Fulfilled (Response true (Fulfilled demoList)))
               initialState initialStore = Ok (st1, s1) /\
    loading st1 = false /\ error st1 = None /\
    buildingArrays s1 !! buildings st1 = Some demoList /\
    preserved initialStore s1 /\
    filterEffect asciiLowerCase st1 s1 = Ok (st2, s2) /\
    buildingArrays s2 !! filteredBuildings st2 = Some demoList /\
    statsGive (buildings st1) s1 total byCount byWidth byAvg /\
    total = list_sum (map measuredCount demoList).
Proof.
  apply (load_success asciiLowerCase (Response true (Fulfilled demoList))
           demoList); reflexivity.
Defined.

Lemma load_failure_witness :
  exists st1,
    loadEffect (Fulfilled (Response false (Fulfilled demoList)))
               initialState initialStore = Ok (st1, initialStore) /\
    loading st1 = false /\ error st1 = Some loadFailureMessage /\
    buildings st1 = buildings initialState /\
    filteredBuildings st1 = filteredBuildings initialState /\
    (loadFailureMessage <> [] ->
     filterEffect asciiLowerCase st1 initialStore = Ok (st1, initialStore)).
Proof.
  apply (load_failure asciiLowerCase
           (Fulfilled (Response false (Fulfilled demoList)))
           loadFailureMessage initialState initialStore).
  right. exists (Response false (Fulfilled demoList)).
  split; [reflexivity|]. left. split; reflexivity.
Defined.

(** The lists of the demo buildings: "se" finds the building at Seoul,
    the filter "severe" keeps A and D, and the proxy maps
    "/api/buildings" to "/buildings". *)
Example demo_runs :
  pipelineGives asciiLowerCase 0 (str " SE ") [] demoStore [demoMixed] /\
  pipelineGives asciiLowerCase 0 [] [Severe] demoStore [demoA; demoMixed] /\
  afterClicks [Severe; Observe; Severe] = [Observe] /\
  rewrite (str "/api/buildings") = str "/buildings" /\
  rewrite (str "/buildings") = str "/buildings".
Proof.
  split; [eexists _, _; split; reflexivity|].
  split; [eexists _, _; split; reflexivity|].
  repeat split.
Qed.
